(** * AI-Blood-App: client contracts and the donor-matching core

    A shallow embedding of the TypeScript client of the blood-donation
    application (blood-type tables, request cards, the create-request form,
    the auth store, the notification list) together with the two server-side
    operations the client calls but whose code is not part of the client
    tree (donor selection and acceptance of a match).

    JavaScript strings are [string]; arrays are [list]; an object literal
    iterated with [Object.entries] is an association list in insertion
    order; [x | null] and optional fields are [option]; a promise that may
    reject is an explicit outcome. *)

From Stdlib Require Import String Ascii List Bool ZArith Lia Arith PeanoNat.
From Stdlib Require QArith.
Import ListNotations.

Local Open Scope string_scope.
Local Open Scope list_scope.

(** ** JavaScript array helpers *)

Module JS.

(** [arr.includes(x)] on an array of strings. *)
Definition includes (x : string) (arr : list string) : bool :=
  existsb (String.eqb x) arr.

(** [arr.push(x)]: append at the end. *)
Definition push {A} (arr : list A) (x : A) : list A := arr ++ [x].

(** [obj[key]] on an object literal given by its own entries; a key it
    does not have is [undefined].  Used at the names of blood types only,
    none of which is a member of [Object.prototype]. *)
Fixpoint get {A} (entries : list (string * A)) (key : string) : option A :=
  match entries with
  | [] => None
  | (k, v) :: rest => if String.eqb k key then Some v else get rest key
  end.

End JS.

(** ** HTTP calls *)

Module Http.

(** The outcome of an [axios] call, decided by the server: the response
    body, or a rejection with the [detail] of the error body if any. *)
Inductive response (A : Type) :=
| Resolved (data : A)
| Rejected (detail : option string).
Arguments Resolved {A} data.
Arguments Rejected {A} detail.

Definition resolved {A} (r : response A) : bool :=
  match r with
  | Resolved _ => true
  | Rejected _ => false
  end.

End Http.

(** ** constants/bloodTypes.ts *)

Module BloodTypes.

Definition BLOOD_TYPES : list string :=
  ["O-"; "O+"; "A-"; "A+"; "B-"; "B+"; "AB-"; "AB+"].

(** The object literal, as [Object.entries] enumerates it. *)
Definition BLOOD_COMPATIBILITY : list (string * list string) :=
  [ ("O-",  ["O-"; "O+"; "A-"; "A+"; "B-"; "B+"; "AB-"; "AB+"]);
    ("O+",  ["O+"; "A+"; "B+"; "AB+"]);
    ("A-",  ["A-"; "A+"; "AB-"; "AB+"]);
    ("A+",  ["A+"; "AB+"]);
    ("B-",  ["B-"; "B+"; "AB-"; "AB+"]);
    ("B+",  ["B+"; "AB+"]);
    ("AB-", ["AB-"; "AB+"]);
    ("AB+", ["AB+"]) ].

(** One iteration of the [for ... of Object.entries(...)] loop. *)
Definition scan_step (recipientType : string) (compatible : list string)
           (entry : string * list string) : list string :=
  let '(donorType, canDonateTo) := entry in
  if JS.includes recipientType canDonateTo
  then JS.push compatible donorType
  else compatible.

Definition getCompatibleDonorTypes (recipientType : string) : list string :=
  fold_left (scan_step recipientType) BLOOD_COMPATIBILITY [].

(** The forward relation: [r] is an element of [BLOOD_COMPATIBILITY[d]]. *)
Definition canDonateTo (donorType recipientType : string) : bool :=
  match JS.get BLOOD_COMPATIBILITY donorType with
  | Some recipients => JS.includes recipientType recipients
  | None => false
  end.

(** *** The ABO/Rh rules, read off the name of a type

    Stated independently of the table: a type carries the A antigen when
    its name has the letter A, the B antigen when it has the letter B,
    and is Rh-positive when it has the sign [+]. *)

Fixpoint has_char (c : ascii) (s : string) : bool :=
  match s with
  | EmptyString => false
  | String c' s' => Ascii.eqb c c' || has_char c s'
  end.

Definition antigen_A (t : string) : bool := has_char "A"%char t.
Definition antigen_B (t : string) : bool := has_char "B"%char t.
Definition rh_positive (t : string) : bool := has_char "+"%char t.

(** The donor's ABO antigens are among the recipient's. *)
Definition abo_subset (d r : string) : Prop :=
  (antigen_A d = true -> antigen_A r = true) /\
  (antigen_B d = true -> antigen_B r = true).

Definition rh_ok (d r : string) : Prop :=
  rh_positive d = false \/ rh_positive r = true.

(** The rules as one boolean, to compare with the table by evaluation. *)
Definition abo_rh_rule (d r : string) : bool :=
  implb (antigen_A d) (antigen_A r) &&
  implb (antigen_B d) (antigen_B r) &&
  (negb (rh_positive d) || rh_positive r).

(** What a caller of [getCompatibleDonorTypes] observes: the function has
    no [throw] and calls nothing that throws on a string. *)
Inductive lookup_error := UnknownBloodType.

Inductive completion (A : Type) :=
| Returned (a : A)
| Thrown (e : lookup_error).
Arguments Returned {A} a.
Arguments Thrown {A} e.

Definition call_getCompatibleDonorTypes (recipientType : string)
  : completion (list string) :=
  Returned (getCompatibleDonorTypes recipientType).

End BloodTypes.

(** ** The create-request screen (app/request/create) *)

Module CreateRequest.

(** A JavaScript Number as far as this screen needs it.  [Num z] is an
    integer of magnitude at most 2^53, which a double holds exactly;
    [-0] is identified with [0] (both are falsy and equal).  [Huge] is
    what a longer run of digits gives: a double of magnitude above 2^53,
    rounded from the digits, or an infinity beyond the range of
    doubles; only its sign is kept. *)
Inductive number :=
| NaN
| Num (z : Z)
| Huge (negative : bool).

(** The Number value of an integer. *)
Definition of_integer (z : Z) : number :=
  if (Z.abs z <=? 2 ^ 53)%Z then Num z else Huge (z <? 0)%Z.

(** [a || b] on numbers: [NaN] and [0] are falsy. *)
Definition or_else (a b : number) : number :=
  match a with
  | NaN => b
  | Num 0 => b
  | _ => a
  end.

(** Strings are read as UTF-8.  The white space that [parseInt] skips:
    TAB, LF, VT, FF, CR, SP; U+00A0; U+1680; U+2000..U+200A; U+2028;
    U+2029; U+202F; U+205F; U+3000; U+FEFF. *)
Definition byte (c : ascii) : N := N_of_ascii c.

Definition ws1 (c : ascii) : bool :=
  ((9 <=? byte c) && (byte c <=? 13) || (byte c =? 32))%N.

Definition ws2 (c1 c2 : ascii) : bool :=
  ((byte c1 =? 194) && (byte c2 =? 160))%N.

Definition ws3 (c1 c2 c3 : ascii) : bool :=
  let '(b1, b2, b3) := (byte c1, byte c2, byte c3) in
  ((b1 =? 225) && (b2 =? 154) && (b3 =? 128)
   || (b1 =? 226) && (b2 =? 128) &&
      ((128 <=? b3) && (b3 <=? 138) || (b3 =? 168) || (b3 =? 169)
       || (b3 =? 175))
   || (b1 =? 226) && (b2 =? 129) && (b3 =? 159)
   || (b1 =? 227) && (b2 =? 128) && (b3 =? 128)
   || (b1 =? 239) && (b2 =? 187) && (b3 =? 191))%N.

Fixpoint trimStart (s : string) : string :=
  match s with
  | EmptyString => s
  | String c1 r1 =>
      if ws1 c1 then trimStart r1 else
      match r1 with
      | EmptyString => s
      | String c2 r2 =>
          if ws2 c1 c2 then trimStart r2 else
          match r2 with
          | EmptyString => s
          | String c3 r3 => if ws3 c1 c2 c3 then trimStart r3 else s
          end
      end
  end.

(** The value of a character as a digit of the given radix. *)
Definition digit (radix : Z) (c : ascii) : option Z :=
  let b := Z.of_N (byte c) in
  let v := (if (48 <=? b) && (b <=? 57) then Some (b - 48)
            else if (97 <=? b) && (b <=? 122) then Some (b - 87)
            else if (65 <=? b) && (b <=? 90) then Some (b - 55)
            else None)%Z in
  match v with
  | Some d => if (d <? radix)%Z then Some d else None
  | None => None
  end.

(** The longest prefix of digits. *)
Fixpoint digits (radix : Z) (s : string) : list Z :=
  match s with
  | EmptyString => []
  | String c r =>
      match digit radix c with
      | Some d => d :: digits radix r
      | None => []
      end
  end.

Definition mathInt (radix : Z) (ds : list Z) : Z :=
  fold_left (fun acc d => acc * radix + d)%Z ds 0%Z.

(** [parseInt(s)] with no radix argument. *)
Definition parseInt (s : string) : number :=
  let trimmed := trimStart s in
  let '(sign, unsigned) :=
    match trimmed with
    | String "-" r => ((-1)%Z, r)
    | String "+" r => (1%Z, r)
    | _ => (1%Z, trimmed)
    end in
  let '(radix, body) :=
    match unsigned with
    | String "0" (String "x" r) => (16%Z, r)
    | String "0" (String "X" r) => (16%Z, r)
    | _ => (10%Z, unsigned)
    end in
  match digits radix body with
  | [] => NaN
  | ds => of_integer (sign * mathInt radix ds)
  end.

(** The options of the units selector. *)
Definition UNIT_OPTIONS : list string := ["1"; "2"; "3"; "4"; "5+"].

Definition URGENCY_VALUES : list string := ["emergency"; "urgent"; "normal"].

(** [s || undefined] on a string: the empty string is falsy. *)
Definition or_undefined (s : string) : option string :=
  match s with
  | EmptyString => None
  | _ => Some s
  end.

Section Form.

(** Geographic coordinates are passed through untouched. *)
Variable coord : Type.

(** The [useState] cells of the screen. *)
Record Form := mkForm {
  bloodType : string;
  unitsNeeded : string;
  urgency : string;
  hospitalName : string;
  hospitalAddress : string;
  patientName : string;
  notes : string;
  latitude : option coord;
  longitude : option coord
}.

Definition initial : Form :=
  mkForm "" "1" "normal" "" "" "" "" None None.

(** The argument of [bloodApi.createRequest]. *)
Record Payload := mkPayload {
  blood_type : string;
  units_needed : number;
  p_urgency : string;
  hospital_name : option string;
  hospital_address : option string;
  p_latitude : option coord;
  p_longitude : option coord;
  patient_name : option string;
  p_notes : option string
}.

(** [handleSubmit] up to the call of [createRequest]: [None] when the
    handler alerts and returns because no blood type is selected. *)
Definition handleSubmit (f : Form) : option Payload :=
  match bloodType f with
  | EmptyString => None
  | _ =>
      Some (mkPayload
              (bloodType f)
              (or_else (parseInt (unitsNeeded f)) (Num 1))
              (urgency f)
              (or_undefined (hospitalName f))
              (or_undefined (hospitalAddress f))
              (latitude f)
              (longitude f)
              (or_undefined (patientName f))
              (or_undefined (notes f)))
  end.

(** What the user can do to the form: each setter as the screen wires
    it. *)
Inductive step : Form -> Form -> Prop :=
| select_blood_type f t :
    In t BloodTypes.BLOOD_TYPES ->
    step f (mkForm t (unitsNeeded f) (urgency f) (hospitalName f)
              (hospitalAddress f) (patientName f) (notes f)
              (latitude f) (longitude f))
| select_urgency f u :
    In u URGENCY_VALUES ->
    step f (mkForm (bloodType f) (unitsNeeded f) u (hospitalName f)
              (hospitalAddress f) (patientName f) (notes f)
              (latitude f) (longitude f))
| press_unit f unit :
    In unit UNIT_OPTIONS ->
    step f (mkForm (bloodType f) unit (urgency f) (hospitalName f)
              (hospitalAddress f) (patientName f) (notes f)
              (latitude f) (longitude f))
| type_hospital_name f text :
    step f (mkForm (bloodType f) (unitsNeeded f) (urgency f) text
              (hospitalAddress f) (patientName f) (notes f)
              (latitude f) (longitude f))
| type_hospital_address f text :
    step f (mkForm (bloodType f) (unitsNeeded f) (urgency f)
              (hospitalName f) text (patientName f) (notes f)
              (latitude f) (longitude f))
| type_patient_name f text :
    step f (mkForm (bloodType f) (unitsNeeded f) (urgency f)
              (hospitalName f) (hospitalAddress f) text (notes f)
              (latitude f) (longitude f))
| type_notes f text :
    step f (mkForm (bloodType f) (unitsNeeded f) (urgency f)
              (hospitalName f) (hospitalAddress f) (patientName f) text
              (latitude f) (longitude f))
| set_latitude f lat :
    step f (mkForm (bloodType f) (unitsNeeded f) (urgency f)
              (hospitalName f) (hospitalAddress f) (patientName f)
              (notes f) (Some lat) (longitude f))
| set_longitude f lon :
    step f (mkForm (bloodType f) (unitsNeeded f) (urgency f)
              (hospitalName f) (hospitalAddress f) (patientName f)
              (notes f) (latitude f) (Some lon)).

Inductive reachable : Form -> Prop :=
| reach_initial : reachable initial
| reach_step f f' : reachable f -> step f f' -> reachable f'.

End Form.

Arguments bloodType {coord} _.
Arguments unitsNeeded {coord} _.
Arguments units_needed {coord} _.
Arguments handleSubmit {coord} _.
Arguments reachable {coord} _.
Arguments step {coord} _ _.
Arguments initial {coord}.

(** A filled-in form and the payload it submits. *)
Definition sample_form : Form Z :=
  mkForm Z "B+" "5+" "urgent" "General Hospital" "" "" "" None None.

Definition sample_payload : Payload Z :=
  mkPayload Z "B+" (Num 5) "urgent" (Some "General Hospital") None
            None None None None.

End CreateRequest.

(** ** store/authStore.ts *)

Module AuthStore.
Export Http.

Record DonorProfile := mkDonorProfile {
  dp_blood_type : option string;
  dp_is_available : option bool;
  dp_latitude : option QArith_base.Q;
  dp_longitude : option QArith_base.Q;
  dp_address : option string;
  dp_last_donation_date : option string
}.

Record User := mkUser {
  id : string;
  email : string;
  full_name : string;
  phone : string;
  role : string;
  donor_profile : option DonorProfile;
  created_at : string
}.

(** The data fields of the zustand store. *)
Record AuthState := mkAuthState {
  user : option User;
  token : option string;
  isLoading : bool;
  isAuthenticated : bool
}.

(** The argument of [set]: the fields it names. *)
Record Patch := mkPatch {
  set_user : option (option User);
  set_token : option (option string);
  set_isLoading : option bool;
  set_isAuthenticated : option bool
}.

Definition merge (p : Patch) (st : AuthState) : AuthState :=
  mkAuthState
    (match set_user p with Some v => v | None => user st end)
    (match set_token p with Some v => v | None => token st end)
    (match set_isLoading p with Some v => v | None => isLoading st end)
    (match set_isAuthenticated p with
     | Some v => v
     | None => isAuthenticated st
     end).

(** The two keys the store keeps in [AsyncStorage]. *)
Inductive key := TokenKey | UserKey.

Record Disk := mkDisk {
  disk_token : option string;
  disk_user : option string
}.

Definition disk_get (k : key) (d : Disk) : option string :=
  match k with TokenKey => disk_token d | UserKey => disk_user d end.

Definition disk_put (k : key) (v : option string) (d : Disk) : Disk :=
  match k with
  | TokenKey => mkDisk v (disk_user d)
  | UserKey => mkDisk (disk_token d) v
  end.

(** What a rejected promise or a [throw] carries. *)
Inductive error :=
| HttpError (detail : option string)   (* error.response?.data?.detail *)
| StorageError
| SyntaxError
| Error (message : string).

(** The store, the device storage, the storage calls that are going to
    reject (one flag per call, in order; none once the list is used up),
    and every state the store has been given, latest first. *)
Record World := mkWorld {
  store : AuthState;
  disk : Disk;
  faults : list bool;
  log : list AuthState
}.

Inductive result (A : Type) :=
| Val (a : A)
| Exn (e : error).
Arguments Val {A} a.
Arguments Exn {A} e.

Definition M (A : Type) : Type := World -> result A * World.

Definition ret {A} (a : A) : M A := fun w => (Val a, w).

Definition bind {A B} (m : M A) (k : A -> M B) : M B :=
  fun w =>
    match m w with
    | (Val a, w') => k a w'
    | (Exn e, w') => (Exn e, w')
    end.

Definition throw {A} (e : error) : M A := fun w => (Exn e, w).

Definition try_catch {A} (m : M A) (handler : error -> M A) : M A :=
  fun w =>
    match m w with
    | (Val a, w') => (Val a, w')
    | (Exn e, w') => handler e w'
    end.

Declare Scope auth_scope.
Delimit Scope auth_scope with auth.
Notation "x <- m ;; k" := (bind m (fun x => k))
  (at level 61, m at next level, right associativity) : auth_scope.
Notation "m ;;; k" := (bind m (fun _ => k))
  (at level 61, right associativity) : auth_scope.
Local Open Scope auth_scope.

(** [set(patch)] and [get()]. *)
Definition set (p : Patch) : M unit :=
  fun w =>
    let st := merge p (store w) in
    (Val tt, mkWorld st (disk w) (faults w) (st :: log w)).

Definition get : M AuthState := fun w => (Val (store w), w).

(** A storage call consumes one fault flag; a rejected call leaves the
    storage as it was. *)
Definition storage_call {A} (run : Disk -> A * Disk) : M A :=
  fun w =>
    match faults w with
    | true :: rest =>
        (Exn StorageError, mkWorld (store w) (disk w) rest (log w))
    | other =>
        let '(a, d) := run (disk w) in
        (Val a, mkWorld (store w) d (tl other) (log w))
    end.

Definition AsyncStorage_getItem (k : key) : M (option string) :=
  storage_call (fun d => (disk_get k d, d)).

Definition AsyncStorage_setItem (k : key) (v : string) : M unit :=
  storage_call (fun d => (tt, disk_put k (Some v) d)).

Definition AsyncStorage_removeItem (k : key) : M unit :=
  storage_call (fun d => (tt, disk_put k None d)).

(** [await axios...]: the server's answer becomes a value or a throw. *)
Definition await {A} (r : response A) : M A :=
  match r with
  | Resolved data => ret data
  | Rejected detail => throw (HttpError detail)
  end.

(** [error.response?.data?.detail || fallback]. *)
Definition detail_or (e : error) (fallback : string) : string :=
  match e with
  | HttpError (Some (String c rest)) => String c rest
  | _ => fallback
  end.

(** Truthiness of [string | null]. *)
Definition truthy (s : option string) : bool :=
  match s with
  | Some (String _ _) => true
  | _ => false
  end.

Section Store.

(** [JSON.stringify] on users, and [JSON.parse] on what storage holds
    under the user key.  A parse that throws is [None].  The result of a
    parse has type [any] and the store takes it as its [user] as it
    comes: [Some None] is a parse that returns [null] (the text "null"),
    [Some (Some u)] one that returns a user object.  A stored text is
    taken to denote one of the two whenever it parses. *)
Variable JSON_stringify : User -> string.
Variable JSON_parse : string -> option (option User).

Definition initial : AuthState := mkAuthState None None true false.

(** What the server answers to login and register; the token is a
    string, as the store's types have it. *)
Record AuthResponse := mkAuthResponse {
  access_token : string;
  resp_user : User
}.

Definition login (email password : string)
           (resp : response AuthResponse) : M unit :=
  try_catch
    (data <- await resp ;;
     AsyncStorage_setItem TokenKey (access_token data) ;;;
     AsyncStorage_setItem UserKey (JSON_stringify (resp_user data)) ;;;
     set (mkPatch (Some (Some (resp_user data)))
                  (Some (Some (access_token data))) None (Some true)))
    (fun e => throw (Error (detail_or e "Login failed"))).

(** The body of a registration request. *)
Record RegisterData := mkRegisterData {
  reg_email : string;
  reg_password : string;
  reg_full_name : string;
  reg_phone : string;
  reg_role : string
}.

Definition register (data : RegisterData)
           (resp : response AuthResponse) : M unit :=
  try_catch
    (body <- await resp ;;
     AsyncStorage_setItem TokenKey (access_token body) ;;;
     AsyncStorage_setItem UserKey (JSON_stringify (resp_user body)) ;;;
     set (mkPatch (Some (Some (resp_user body)))
                  (Some (Some (access_token body))) None (Some true)))
    (fun e => throw (Error (detail_or e "Registration failed"))).

Definition logout : M unit :=
  AsyncStorage_removeItem TokenKey ;;;
  AsyncStorage_removeItem UserKey ;;;
  set (mkPatch (Some None) (Some None) None (Some false)).

Definition loadUser (me : response User) : M unit :=
  try_catch
    (tok <- AsyncStorage_getItem TokenKey ;;
     userStr <- AsyncStorage_getItem UserKey ;;
     if truthy tok && truthy userStr then
       u <- match JSON_parse (match userStr with
                              | Some str => str
                              | None => ""
                              end) with
            | Some u => ret u
            | None => throw SyntaxError
            end ;;
       set (mkPatch (Some u) (Some tok) (Some false) (Some true)) ;;;
       try_catch
         (data <- await me ;;
          set (mkPatch (Some (Some data)) None None None) ;;;
          AsyncStorage_setItem UserKey (JSON_stringify data))
         (fun _ =>
            set (mkPatch (Some None) (Some None) None (Some false)) ;;;
            AsyncStorage_removeItem TokenKey ;;;
            AsyncStorage_removeItem UserKey)
     else
       set (mkPatch None None (Some false) None))
    (fun _ => set (mkPatch None None (Some false) None)).

Definition updateDonorProfile (profile : DonorProfile)
           (resp : response User) : M unit :=
  st <- get ;;
  try_catch
    (updatedUser <- await resp ;;
     AsyncStorage_setItem UserKey (JSON_stringify updatedUser) ;;;
     set (mkPatch (Some (Some updatedUser)) None None None))
    (fun e => throw (Error (detail_or e "Failed to update profile"))).

Definition refreshUser (resp : response User) : M unit :=
  st <- get ;;
  if negb (truthy (token st)) then ret tt
  else
    try_catch
      (data <- await resp ;;
       set (mkPatch (Some (Some data)) None None None) ;;;
       AsyncStorage_setItem UserKey (JSON_stringify data))
      (fun _ => ret tt).

(** One call of a store operation, with the server's answer to the
    request it makes. *)
Inductive call :=
| Login (email password : string) (resp : response AuthResponse)
| Register (data : RegisterData) (resp : response AuthResponse)
| Logout
| LoadUser (me : response User)
| UpdateDonorProfile (profile : DonorProfile) (resp : response User)
| RefreshUser (resp : response User).

Definition run (c : call) : M unit :=
  match c with
  | Login email password resp => login email password resp
  | Register data resp => register data resp
  | Logout => logout
  | LoadUser me => loadUser me
  | UpdateDonorProfile profile resp => updateDonorProfile profile resp
  | RefreshUser resp => refreshUser resp
  end.

End Store.

(** The invariant: authenticated exactly when a token is held. *)
Definition authenticated_iff_token (st : AuthState) : Prop :=
  isAuthenticated st = true <-> token st <> None.

(** A patch that writes [token] and [isAuthenticated] together and
    consistently, or neither. *)
Definition patch_ok (p : Patch) : Prop :=
  match set_token p, set_isAuthenticated p with
  | None, None => True
  | Some (Some _), Some true => True
  | Some None, Some false => True
  | _, _ => False
  end.

(** A computation keeps the invariant: from a store that satisfies it,
    the final store and every intermediate store it sets satisfy it. *)
Definition keeps {A} (m : M A) : Prop :=
  forall w,
    authenticated_iff_token (store w) ->
    authenticated_iff_token (store (snd (m w))) /\
    exists fresh,
      log (snd (m w)) = fresh ++ log w /\
      Forall authenticated_iff_token fresh.

End AuthStore.

(** ** The notifications screen (app/notifications.tsx) *)

Module Notifications.
Import Http.

Section Screen.

(** The [data?: any] payload of a notification and the [request_id] it
    may carry. *)
Variable any : Type.
Variable request_id : any -> option string.

Record Notification := mkNotification {
  id : string;
  user_id : string;
  title : string;
  message : string;
  type : string;
  is_read : bool;
  data : option any;
  created_at : string
}.

(** [{ ...n, is_read: true }]. *)
Definition mark_read (n : Notification) : Notification :=
  mkNotification (id n) (user_id n) (title n) (message n) (type n)
                 true (data n) (created_at n).

(** [notification.data?.request_id], when truthy. *)
Definition deep_link (n : Notification) : option string :=
  match data n with
  | Some d =>
      match request_id d with
      | Some (String c rest) =>
          Some (String.append "/request/" (String c rest))
      | _ => None
      end
  | None => None
  end.

(** [handleNotificationPress]: the new value of the [notifications]
    cell given its current value, and the route pushed, if any.
    [markRead] is the server's answer to [markNotificationRead]; it is
    only asked when the pressed notification is unread. *)
Definition handleNotificationPress (notification : Notification)
           (markRead : response unit) (prev : list Notification)
  : list Notification * option string :=
  let next :=
    if negb (is_read notification) then
      match markRead with
      | Resolved _ =>
          map (fun n => if String.eqb (id n) (id notification)
                        then mark_read n else n) prev
      | Rejected _ => prev
      end
    else prev in
  (next, deep_link notification).

(** [handleMarkAllRead]. *)
Definition handleMarkAllRead (markAll : response unit)
           (prev : list Notification) : list Notification :=
  match markAll with
  | Resolved _ => map mark_read prev
  | Rejected _ => prev
  end.

(** Every field other than [is_read] is the same. *)
Definition same_but_is_read (n n' : Notification) : Prop :=
  id n' = id n /\ user_id n' = user_id n /\ title n' = title n /\
  message n' = message n /\ type n' = type n /\ data n' = data n /\
  created_at n' = created_at n.

End Screen.

Arguments id {any} _.
Arguments is_read {any} _.
Arguments mark_read {any} _.
Arguments handleNotificationPress {any} _ _ _ _.
Arguments handleMarkAllRead {any} _ _.
Arguments same_but_is_read {any} _ _.

End Notifications.

(** ** api/bloodApi.ts: the records the client exchanges with the server *)

Module Api.

(** JSON numbers: unit counts are integers, distances, scores and
    coordinates are rationals. *)
Record DonorMatch := mkDonorMatch {
  donor_id : string;
  donor_name : string;
  dm_blood_type : string;
  distance_km : QArith_base.Q;
  compatibility_score : QArith_base.Q;
  is_available : bool;
  last_donation_date : option string;
  dm_status : option string
}.

Record BloodRequest := mkBloodRequest {
  id : string;
  requester_id : string;
  requester_name : string;
  blood_type : string;
  units_needed : Z;
  units_fulfilled : Z;
  urgency : string;
  status : string;
  hospital_name : option string;
  hospital_address : option string;
  latitude : option QArith_base.Q;
  longitude : option QArith_base.Q;
  patient_name : option string;
  notes : option string;
  matched_donors : list DonorMatch;
  ai_recommendation : option string;
  created_at : string;
  updated_at : string
}.

End Api.

(** ** Where the client offers "Accept & Donate" *)

Module RequestViews.
Import Api.

(** [a === b] where [b] may be [undefined]. *)
Definition strict_eq (a : string) (b : option string) : bool :=
  match b with
  | Some b' => String.eqb a b'
  | None => false
  end.

(** components/RequestCard.tsx:
    [showAccept && request.status !== 'fulfilled' && <button>]. *)
Definition RequestCard_offers_accept (showAccept : option bool)
           (request : BloodRequest) : bool :=
  match showAccept with
  | Some true => negb (String.eqb (status request) "fulfilled")
  | _ => false
  end.

(** app/requests.tsx and app/index.tsx pass [showAccept={isDonor}]. *)
Definition isDonor (user : option AuthStore.User) : bool :=
  match user with
  | Some u => String.eqb (AuthStore.role u) "donor"
  | None => false
  end.

Definition list_offers_accept (user : option AuthStore.User)
           (request : BloodRequest) : bool :=
  RequestCard_offers_accept (Some (isDonor user)) request.

(** app/request/[id].tsx, once the request is loaded. *)
Definition user_id (user : option AuthStore.User) : option string :=
  option_map AuthStore.id user.

Definition amMatched (user : option AuthStore.User)
           (request : BloodRequest) : bool :=
  existsb (fun d => strict_eq (donor_id d) (user_id user))
          (matched_donors request).

Definition myMatch (user : option AuthStore.User)
           (request : BloodRequest) : option DonorMatch :=
  find (fun d => strict_eq (donor_id d) (user_id user))
       (matched_donors request).

Definition hasAccepted (user : option AuthStore.User)
           (request : BloodRequest) : bool :=
  match myMatch user request with
  | Some m => strict_eq "accepted" (dm_status m)
  | None => false
  end.

Definition RequestDetailScreen_offers_accept
           (user : option AuthStore.User) (request : BloodRequest) : bool :=
  isDonor user && amMatched user request && negb (hasAccepted user request)
  && negb (String.eqb (status request) "fulfilled").

End RequestViews.

(** ** The matching and fulfilment core behind the API

    The server code is not part of the client tree; the definitions of this
    module follow the written design of the core. *)

Module Core.
Import QArith_base.
Local Close Scope Q_scope.

(** Modelled from the spec: the enumerations of the data model (3) and
    the error taxonomy (7). *)
Inductive Urgency := emergency | urgent | normal.

Inductive RequestStatus := pending | matching | fulfilled | cancelled.

Inductive MatchStatus := proposed | accepted | declined.

Inductive Error :=
| InvalidCoordinate
| UnknownBloodType
| MatchNotFound
| AlreadyDecided
| RequestTerminal
| RequestAlreadySatisfied
| StorageTimeout.

Inductive Result (A : Type) :=
| Ok (a : A)
| Err (e : Error).
Arguments Ok {A} a.
Arguments Err {A} e.

Definition is_ok {A} (r : Result A) : bool :=
  match r with Ok _ => true | Err _ => false end.

(** Modelled from the spec: the entities of the data model (3), Donor,
    DonorMatch and BloodRequest, the latter with the coordinate that
    MatchSelector measures distances against.  Unit counts are integers;
    distances, scores and probabilities are rationals. *)
Record Coordinate := mkCoordinate {
  lat : Q;
  long : Q
}.

Record Donor := mkDonor {
  donor_identity : string;
  donor_full_name : string;
  donor_blood_type : string;
  donor_coordinate : Coordinate;
  donor_is_available : bool;
  donor_last_donation : option string;
  response_probability : Q
}.

Record DonorMatch := mkDonorMatch {
  donor_id : string;
  donor_name : string;
  match_blood_type : string;
  distance_km : Q;
  compatibility_score : Q;
  match_status : MatchStatus;
  is_available : bool
}.

Record BloodRequest := mkBloodRequest {
  id : string;
  requester_id : string;
  blood_type : string;
  units_needed : Z;
  units_fulfilled : Z;
  urgency : Urgency;
  status : RequestStatus;
  matched_donors : list DonorMatch;
  coordinate : Coordinate
}.

(** Modelled from the spec: the terminal states of RequestLifecycle
    (4.5), "fulfilled" and "cancelled". *)
Definition terminal (s : RequestStatus) : bool :=
  match s with
  | fulfilled | cancelled => true
  | pending | matching => false
  end.

(** *** MatchSelector *)

Section MatchSelector.

(** GeoDistance, ScoringEngine, the cooldown test and the two
    configured bounds: supplied collaborators and configuration. *)
Variable distance : Coordinate -> Coordinate -> Q.
Variable score : BloodRequest -> Donor -> Q -> Q.
Variable in_cooldown : Donor -> bool.
Variable radius_km : Q.
Variable top_n : nat.

(** Modelled from the spec: the DonorMatch made for a surviving
    candidate (4.4, steps 4 and 5): identity and availability snapshot,
    distance, score, status proposed. *)
Definition propose (request : BloodRequest) (d : Donor) : DonorMatch :=
  let km := distance (donor_coordinate d) (coordinate request) in
  mkDonorMatch (donor_identity d) (donor_full_name d)
               (donor_blood_type d) km (score request d km) proposed
               (donor_is_available d).

(** Modelled from the spec: the rank order (4.4, step 6): higher score
    first, then shorter distance, then donor identity. *)
Definition precedes (a b : DonorMatch) : bool :=
  match Qcompare (compatibility_score a) (compatibility_score b) with
  | Gt => true
  | Lt => false
  | Eq =>
      match Qcompare (distance_km a) (distance_km b) with
      | Lt => true
      | Gt => false
      | Eq => String.leb (donor_id a) (donor_id b)
      end
  end.

Fixpoint insert (m : DonorMatch) (l : list DonorMatch) : list DonorMatch :=
  match l with
  | [] => [m]
  | x :: rest => if precedes m x then m :: l else x :: insert m rest
  end.

Definition rank (l : list DonorMatch) : list DonorMatch :=
  fold_right insert [] l.

(** Modelled from the spec: MatchSelector.selectMatches (4.4), whose
    code is on the server: keep the available donors, drop those in
    the cooldown window, keep those who can donate to the requested
    type, compute the distance and keep those within the radius,
    score, sort, truncate to the top N. *)
Definition selectMatches (request : BloodRequest)
           (candidateDonors : list Donor) : list DonorMatch :=
  let available := filter donor_is_available candidateDonors in
  let rested := filter (fun d => negb (in_cooldown d)) available in
  let compatible :=
    filter (fun d => BloodTypes.canDonateTo (donor_blood_type d)
                                            (blood_type request))
           rested in
  let located := map (propose request) compatible in
  let near := filter (fun m => Qle_bool (distance_km m) radius_km)
                     located in
  firstn top_n (rank near).

(** Modelled from the spec: creation of a request (4.5): it is created
    pending with nothing fulfilled and becomes matching, in the same
    path, once MatchSelector has returned. *)
Definition createRequest (request_id requester type : string)
           (units : Z) (u : Urgency) (where_ : Coordinate)
           (candidateDonors : list Donor) : BloodRequest :=
  let created :=
    mkBloodRequest request_id requester type units 0 u pending []
                   where_ in
  mkBloodRequest request_id requester type units 0 u matching
                 (selectMatches created candidateDonors) where_.

End MatchSelector.

(** *** FulfillmentCoordinator *)

(** Modelled from the spec: setting a match's status to accepted, and
    finding and updating the one match of a donor in a request's
    list (4.6, steps 1 and 3). *)
Definition accept (m : DonorMatch) : DonorMatch :=
  mkDonorMatch (donor_id m) (donor_name m) (match_blood_type m)
               (distance_km m) (compatibility_score m) accepted
               (is_available m).

Definition locate (donor : string) (l : list DonorMatch)
  : option DonorMatch :=
  find (fun m => String.eqb (donor_id m) donor) l.

Fixpoint mark_accepted (donor : string) (l : list DonorMatch)
  : list DonorMatch :=
  match l with
  | [] => []
  | m :: rest =>
      if String.eqb (donor_id m) donor then accept m :: rest
      else m :: mark_accepted donor rest
  end.

(** Modelled from the spec: steps 1 and 2 of acceptMatch (4.6), which
    read the request: locate the match of the donor, MatchNotFound when
    there is none, AlreadyDecided when it is accepted or declined, then
    RequestTerminal when the request is fulfilled or cancelled.  A call
    that passes holds the match it located. *)
Definition check (r : BloodRequest) (donor : string) : Result DonorMatch :=
  match locate donor (matched_donors r) with
  | None => Err MatchNotFound
  | Some m =>
      match match_status m with
      | accepted | declined => Err AlreadyDecided
      | proposed =>
          if terminal (status r) then Err RequestTerminal else Ok m
      end
  end.

(** Modelled from the spec: steps 3 and 4 of acceptMatch (4.6), the
    atomic update: when [units_fulfilled < units_needed] the counter is
    incremented, the match accepted and, if the counter saturates, the
    status set to fulfilled; otherwise RequestAlreadySatisfied. *)
Definition commit (r : BloodRequest) (donor : string) (m : DonorMatch)
  : Result DonorMatch * BloodRequest :=
  if (units_fulfilled r <? units_needed r)%Z then
    let fulfilled_now := (units_fulfilled r + 1)%Z in
    (Ok (accept m),
     mkBloodRequest
       (id r) (requester_id r) (blood_type r) (units_needed r)
       fulfilled_now (urgency r)
       (if (fulfilled_now =? units_needed r)%Z then fulfilled
        else status r)
       (mark_accepted donor (matched_donors r))
       (coordinate r))
  else (Err RequestAlreadySatisfied, r).

(** Modelled from the spec: FulfillmentCoordinator.acceptMatch (4.6),
    whose code is on the server, as one step on the request (the
    algorithm runs under mutual exclusion per request): steps 1 and 2,
    then steps 3 and 4. *)
Definition acceptMatch (r : BloodRequest) (donor : string)
  : Result DonorMatch * BloodRequest :=
  match check r donor with
  | Ok m => commit r donor m
  | Err e => (Err e, r)
  end.

(** Modelled from the spec: concurrent [acceptMatch] calls for one
    request (5): they exclude each other, so a run of N calls is the N
    calls one after another in the order in which they enter; the order
    is arbitrary.  Returns the result of each call, in that order, and
    the request after each call, the final state last. *)
Fixpoint acceptAll (r : BloodRequest) (donors : list string)
  : list (Result DonorMatch) * list BloodRequest :=
  match donors with
  | [] => ([], [])
  | d :: rest =>
      let '(res, r') := acceptMatch r d in
      let '(results, states) := acceptAll r' rest in
      (res :: results, r' :: states)
  end.

(** Modelled from the spec: the finest interleaving the design admits
    (5): where only the update of the counter is atomic (compare and
    swap), a call first reads (steps 1 and 2) and later updates (steps 3
    and 4), and other calls may run in between.  A call is waiting, has
    passed the checks with the match it located, or is done. *)
Inductive phase :=
| Waiting
| Checked (m : DonorMatch)
| Done (res : Result DonorMatch).

Record Run := mkRun {
  request : BloodRequest;
  calls : list (string * phase)
}.

Fixpoint replace {A} (i : nat) (y : A) (l : list A) : list A :=
  match l, i with
  | [], _ => []
  | _ :: rest, O => y :: rest
  | x :: rest, S i' => x :: replace i' y rest
  end.

(** One step of call number [i]; a call that is done does not move. *)
Definition advance (s : Run) (i : nat) : Run :=
  match nth_error (calls s) i with
  | Some (donor, Waiting) =>
      match check (request s) donor with
      | Ok m => mkRun (request s) (replace i (donor, Checked m) (calls s))
      | Err e =>
          mkRun (request s) (replace i (donor, Done (Err e)) (calls s))
      end
  | Some (donor, Checked m) =>
      let '(res, r') := commit (request s) donor m in
      mkRun r' (replace i (donor, Done res) (calls s))
  | _ => s
  end.

(** The states a schedule goes through, the final one last. *)
Fixpoint interleave (s : Run) (schedule : list nat) : list Run :=
  match schedule with
  | [] => []
  | i :: rest => advance s i :: interleave (advance s i) rest
  end.

Definition start (r : BloodRequest) (donors : list string) : Run :=
  mkRun r (map (fun d => (d, Waiting)) donors).

Definition finish (r : BloodRequest) (donors : list string)
           (schedule : list nat) : Run :=
  last (interleave (start r donors) schedule) (start r donors).

(** The steps a call still has to make. *)
Definition steps_left (ph : phase) : nat :=
  match ph with
  | Waiting => 2
  | Checked _ => 1
  | Done _ => 0
  end.

Definition is_done (c : string * phase) : bool :=
  match snd c with Done _ => true | _ => false end.

Definition all_done (s : Run) : Prop :=
  Forall (fun c => is_done c = true) (calls s).

(** The results of the calls that are done. *)
Definition outcome (c : string * phase) : list (Result DonorMatch) :=
  match snd c with Done res => [res] | _ => [] end.

Definition outcomes (s : Run) : list (Result DonorMatch) :=
  flat_map outcome (calls s).

(** Modelled from the spec: cancellation (4.5), an explicit requester
    action permitted only before the request is fulfilled; it changes
    the status alone. *)
Definition cancelRequest (r : BloodRequest) : BloodRequest :=
  match status r with
  | fulfilled => r
  | _ =>
      mkBloodRequest (id r) (requester_id r) (blood_type r)
                     (units_needed r) (units_fulfilled r) (urgency r)
                     cancelled (matched_donors r) (coordinate r)
  end.

(** The operations on an existing request, and a run of them; the
    request after every operation is returned, the final state last. *)
Inductive operation :=
| AcceptMatch (donor : string)
| CancelRequest.

Definition apply (r : BloodRequest) (op : operation) : BloodRequest :=
  match op with
  | AcceptMatch donor => snd (acceptMatch r donor)
  | CancelRequest => cancelRequest r
  end.

Fixpoint history (r : BloodRequest) (ops : list operation)
  : list BloodRequest :=
  match ops with
  | [] => []
  | op :: rest => apply r op :: history (apply r op) rest
  end.

Definition final (r : BloodRequest) (states : list BloodRequest)
  : BloodRequest := last states r.

Definition successes (results : list (Result DonorMatch)) : nat :=
  length (filter is_ok results).

(** The counter invariant of a request. *)
Definition counter_ok (r : BloodRequest) : Prop :=
  (0 <= units_fulfilled r <= units_needed r)%Z.

(** A request as matching leaves it: not terminal, counter below the
    need. *)
Definition open (r : BloodRequest) : Prop :=
  terminal (status r) = false /\
  (0 <= units_fulfilled r < units_needed r)%Z.

Definition proposed_to (r : BloodRequest) (donor : string) : Prop :=
  exists m, locate donor (matched_donors r) = Some m /\
            match_status m = proposed.

(** What holds of every call during an interleaved run: a call that is not
    done still finds its match proposed; a call that failed did so with
    RequestTerminal or RequestAlreadySatisfied, and the counter is
    saturated. *)
Definition call_ok (r : BloodRequest) (c : string * phase) : Prop :=
  match snd c with
  | Waiting | Checked _ => proposed_to r (fst c)
  | Done (Ok _) => True
  | Done (Err e) =>
      (e = RequestTerminal \/ e = RequestAlreadySatisfied) /\
      units_fulfilled r = units_needed r
  end.

(** The invariant of an interleaved run that started from [r0]. *)
Definition run_ok (r0 : BloodRequest) (s : Run) : Prop :=
  units_needed (request s) = units_needed r0 /\
  units_fulfilled (request s) =
    (units_fulfilled r0 + Z.of_nat (successes (outcomes s)))%Z /\
  (0 <= units_fulfilled r0)%Z /\
  (units_fulfilled (request s) <= units_needed r0)%Z /\
  (if (units_fulfilled (request s) =? units_needed r0)%Z
   then status (request s) = fulfilled
   else terminal (status (request s)) = false) /\
  NoDup (map fst (calls s)) /\
  Forall (call_ok (request s)) (calls s).

End Core.

(** ** Sample data used by the examples *)

Module Samples.
Import QArith_base.
Local Close Scope Q_scope.

Definition origin : Core.Coordinate := Core.mkCoordinate 0%Q 0%Q.

Definition at_km (km : Q) : Core.Coordinate := Core.mkCoordinate km 0%Q.

(** Three O- donors at 1, 5 and 50 km, one of them unavailable, and one
    available B+ donor. *)
Definition ann : Core.Donor :=
  Core.mkDonor "ann" "Ann" "O-" (at_km 1%Q) true None (9 # 10)%Q.
Definition bob : Core.Donor :=
  Core.mkDonor "bob" "Bob" "O-" (at_km 5%Q) true None (8 # 10)%Q.
Definition cyd : Core.Donor :=
  Core.mkDonor "cyd" "Cyd" "O-" (at_km 50%Q) true None (4 # 10)%Q.
Definition dan : Core.Donor :=
  Core.mkDonor "dan" "Dan" "O-" (at_km 2%Q) false None (9 # 10)%Q.
Definition eve : Core.Donor :=
  Core.mkDonor "eve" "Eve" "B+" (at_km 1%Q) true None (9 # 10)%Q.

(** A flat-earth distance along the first axis and the score suggested
    by the design: [max(0, 100 - distance_km)] plus the probability scaled
    by 100. *)
Definition line_distance (a b : Core.Coordinate) : Q :=
  let d := (Core.lat a - Core.lat b)%Q in
  match Qcompare d 0%Q with Lt => (- d)%Q | _ => d end.

Definition sample_score (_ : Core.BloodRequest) (d : Core.Donor) (km : Q)
  : Q :=
  let near := (100 - km)%Q in
  ((match Qcompare near 0%Q with Lt => 0%Q | _ => near end)
   + 100 * Core.response_probability d)%Q.

Definition create :=
  Core.createRequest line_distance sample_score (fun _ => false)
                     100%Q 10.

(** A request for two O- units with the five donors as candidates. *)
Definition two_units : Core.BloodRequest :=
  create "r1" "hospital" "O-" 2%Z Core.emergency origin
         [cyd; dan; eve; bob; ann].

(** The same request after it was fulfilled, and after it was
    cancelled. *)
Definition two_units_fulfilled : Core.BloodRequest :=
  Core.final two_units (snd (Core.acceptAll two_units ["ann"; "bob"])).

Definition two_units_cancelled : Core.BloodRequest :=
  Core.cancelRequest two_units.

(** What the client receives for a cancelled request on which the
    donor "ann" is matched. *)
Definition cancelled_view : Api.BloodRequest :=
  Api.mkBloodRequest
    "r1" "hospital" "City Hospital" "O-" 2 0 "emergency" "cancelled"
    None None None None None None
    [Api.mkDonorMatch "ann" "Ann" "O-" 1%Q 189%Q true None
                      (Some "proposed")]
    None "2025-01-01T00:00:00Z" "2025-01-01T00:05:00Z".

Definition donor_ann : AuthStore.User :=
  AuthStore.mkUser "ann" "ann@example.org" "Ann" "555" "donor" None
                   "2024-01-01T00:00:00Z".

End Samples.

(** ** Colours, icons and texts of urgency and status

    constants/bloodTypes.ts, components/RequestCard.tsx and
    app/request/[id].tsx. *)

Module Display.

Record UrgencyLevel := mkUrgencyLevel {
  value : string;
  label : string;
  color : string
}.

Definition URGENCY_LEVELS : list UrgencyLevel :=
  [ mkUrgencyLevel "emergency" "Emergency" "#EF4444";
    mkUrgencyLevel "urgent" "Urgent" "#F59E0B";
    mkUrgencyLevel "normal" "Normal" "#10B981" ].

(** [getUrgencyColor] of the request card. *)
Definition RequestCard_getUrgencyColor (urgency : string) : string :=
  if String.eqb urgency "emergency" then "#EF4444"
  else if String.eqb urgency "urgent" then "#F59E0B"
  else "#10B981".

(** [getUrgencyColor] of the detail screen. *)
Definition RequestDetailScreen_getUrgencyColor (urgency : string) : string :=
  if String.eqb urgency "emergency" then "#EF4444"
  else if String.eqb urgency "urgent" then "#F59E0B"
  else "#10B981".

(** [getStatusColor] of the request card. *)
Definition RequestCard_getStatusColor (status : string) : string :=
  if String.eqb status "fulfilled" then "#10B981"
  else if String.eqb status "matching" then "#3B82F6"
  else if String.eqb status "cancelled" then "#6B7280"
  else "#F59E0B".

(** [getStatusColor] of the detail screen. *)
Definition RequestDetailScreen_getStatusColor (status : string) : string :=
  if String.eqb status "fulfilled" then "#10B981"
  else if String.eqb status "matching" then "#3B82F6"
  else if String.eqb status "cancelled" then "#6B7280"
  else "#F59E0B".

(** The icon and the sentence of the status card of the detail screen. *)
Definition status_icon (status : string) : string :=
  if String.eqb status "fulfilled" then "checkmark-circle"
  else if String.eqb status "matching" then "search"
  else "time".

Definition status_description (status : string) : string :=
  if String.eqb status "fulfilled" then "Blood request has been fulfilled"
  else if String.eqb status "matching" then "Searching for compatible donors"
  else "Waiting for donor matches".

(** The statuses the client names. *)
Definition STATUSES : list string :=
  ["pending"; "matching"; "fulfilled"; "cancelled"].

End Display.

(** ** api/bloodApi.ts: the authorization header *)

Module BloodApi.
Import AuthStore.
Local Open Scope auth_scope.

(** A headers object, as its entries. *)
Definition Headers : Type := list (string * string).

(** [getAuthHeader]: reads the token from storage; no header when there
    is none or it is empty. *)
Definition getAuthHeader : M Headers :=
  token <- AsyncStorage_getItem TokenKey ;;
  ret (match token with
       | Some (String c rest) =>
           [("Authorization", String.append "Bearer " (String c rest))]
       | _ => []
       end).

(** [getRequests(status)]: the query parameters it sends. *)
Definition getRequests_params (status : option string)
  : list (string * string) :=
  match status with
  | Some (String c rest) => [("status", String c rest)]
  | _ => []
  end.

End BloodApi.

(** ** app/requests.tsx: the status filter *)

Module RequestsScreen.

(** The [filters] of the screen: value and label. *)
Definition filters : list (option string * string) :=
  [ (None, "All"); (Some "pending", "Pending");
    (Some "matching", "Matching"); (Some "fulfilled", "Fulfilled") ].

(** [filter || undefined], the argument [fetchRequests] passes on. *)
Definition or_undefined (filter : option string) : option string :=
  match filter with
  | Some (String c rest) => Some (String c rest)
  | _ => None
  end.

Definition fetchRequests_params (filter : option string)
  : list (string * string) :=
  BloodApi.getRequests_params (or_undefined filter).

End RequestsScreen.

(** ** app/index.tsx: what the home screen does with the auth store *)

Module HomeScreen.
Import AuthStore.





(** What the two effects do over time. *)
Inductive action := ReplaceLogin | FetchData.




End HomeScreen.

(** ** More notions on the auth store *)

Module AuthStoreMore.
Import AuthStore.


(** A patch preserves a property of the store. *)
Definition patch_preserves (I : AuthState -> Prop) (p : Patch) : Prop :=
  forall st, I st -> I (merge p st).


(** From a store satisfying [P], the computation either returns a value
    [a] in a store satisfying [Q a] or throws an error [e] in a store
    satisfying [E e]. *)
Definition triple {A} (P : AuthState -> Prop) (m : M A)
           (Q : A -> AuthState -> Prop) (E : error -> AuthState -> Prop)
  : Prop :=
  forall w,
    P (store w) ->
    match fst (m w) with
    | Val a => Q a (store (snd (m w)))
    | Exn e => E e (store (snd (m w)))
    end.

(** The same property before, after, and on a throw. *)
Definition invariant {A} (I : AuthState -> Prop) (m : M A) : Prop :=
  triple I m (fun _ => I) (fun _ => I).

(** The message of the error that login, register and updateDonorProfile
    throw: the [detail] of the server's answer when it has one, else the
    fallback. *)
Definition failure_message {A} (resp : response A) (fallback : string)
  : string :=
  match resp with
  | Rejected (Some (String c rest)) => String c rest
  | _ => fallback
  end.

(** The application is started again: the store is as created, the
    device storage is kept. *)
Definition restart (w : World) (faults' : list bool) : World :=
  mkWorld initial (disk w) faults' [].






Section AfterReads.

Variable JSON_stringify : User -> string.
Variable JSON_parse : string -> option (option User).


End AfterReads.


End AuthStoreMore.

(** ** app/notifications.tsx: the unread count *)

Module NotificationList.
Import Notifications.

(** [notifications.filter((n) => !n.is_read).length]. *)
Definition unreadCount {any} (notifications : list (Notification any)) : nat :=
  length (filter (fun n => negb (is_read n)) notifications).

(** The header shows "Mark All Read" when something is unread. *)
Definition offers_mark_all {any} (notifications : list (Notification any))
  : bool :=
  (0 <? unreadCount notifications)%nat.

End NotificationList.

(** ** app/request/[id].tsx: the other sections of the detail screen *)

Module RequestDetail.
Import Api RequestViews.

(** [request?.requester_id === user?.id]. *)
Definition isMyRequest (user : option AuthStore.User)
           (request : BloodRequest) : bool :=
  strict_eq (requester_id request) (user_id user).

(** The "Matched Donors" section. *)
Definition shows_matched_donors (user : option AuthStore.User)
           (request : BloodRequest) : bool :=
  isMyRequest user request && (0 <? length (matched_donors request))%nat.

(** The "You have accepted this request" card. *)
Definition shows_already_accepted (user : option AuthStore.User)
           (request : BloodRequest) : bool :=
  isDonor user && hasAccepted user request.

End RequestDetail.

(** ** app/auth/register.tsx *)

Module Register.

Definition ROLES : list string := ["donor"; "patient"; "hospital"].

(** [s.length] of a string held as well-formed UTF-8: the number of
    UTF-16 code units, one for each character of one to three bytes and
    two for each character of four bytes. *)
Fixpoint js_length (s : string) : nat :=
  match s with
  | EmptyString => 0
  | String c rest =>
      let b := N_of_ascii c in
      ((if (b <? 128)%N then 1
        else if (b <? 192)%N then 0
        else if (b <? 240)%N then 1
        else 2) + js_length rest)%nat
  end.

(** The [useState] cells of the screen that the handlers read. *)
Record Form := mkForm {
  step : nat;
  role : string;
  fullName : string;
  email : string;
  phone : string;
  password : string;
  confirmPassword : string
}.

Definition initial : Form := mkForm 1 "donor" "" "" "" "" "".

Definition is_empty (s : string) : bool :=
  match s with EmptyString => true | _ => false end.

(** [handleNext]. *)
Definition handleNext (f : Form) : Form :=
  if Nat.eqb (step f) 1
  then mkForm 2 (role f) (fullName f) (email f) (phone f) (password f)
              (confirmPassword f)
  else f.

(** [handleRegister] up to the call of [register]: the alert it shows,
    or the data it registers with. *)
Definition handleRegister (f : Form) : string + AuthStore.RegisterData :=
  if is_empty (fullName f) || is_empty (email f) || is_empty (phone f)
     || is_empty (password f)
  then inl "Please fill in all fields"
  else if negb (String.eqb (password f) (confirmPassword f))
  then inl "Passwords do not match"
  else if (js_length (password f) <? 6)%nat
  then inl "Password must be at least 6 characters"
  else inr (AuthStore.mkRegisterData (email f) (password f) (fullName f)
                                     (phone f) (role f)).

(** What the user can do to the form. *)
Inductive action :=
| SelectRole (r : string)
| Next
| Back
| TypeFullName (text : string)
| TypeEmail (text : string)
| TypePhone (text : string)
| TypePassword (text : string)
| TypeConfirmPassword (text : string).

(** The role cards are those of [ROLES]; the back arrow returns to the
    first step (and leaves the screen from there). *)
Definition enabled (a : action) : Prop :=
  match a with
  | SelectRole r => In r ROLES
  | _ => True
  end.

Definition act (f : Form) (a : action) : Form :=
  match a with
  | SelectRole r =>
      mkForm (step f) r (fullName f) (email f) (phone f) (password f)
             (confirmPassword f)
  | Next => handleNext f
  | Back =>
      mkForm 1 (role f) (fullName f) (email f) (phone f) (password f)
             (confirmPassword f)
  | TypeFullName text =>
      mkForm (step f) (role f) text (email f) (phone f) (password f)
             (confirmPassword f)
  | TypeEmail text =>
      mkForm (step f) (role f) (fullName f) text (phone f) (password f)
             (confirmPassword f)
  | TypePhone text =>
      mkForm (step f) (role f) (fullName f) (email f) text (password f)
             (confirmPassword f)
  | TypePassword text =>
      mkForm (step f) (role f) (fullName f) (email f) (phone f) text
             (confirmPassword f)
  | TypeConfirmPassword text =>
      mkForm (step f) (role f) (fullName f) (email f) (phone f)
             (password f) text
  end.

Inductive reachable : Form -> Prop :=
| reach_initial : reachable initial
| reach_act f a : reachable f -> enabled a -> reachable (act f a).

End Register.

(** ** The option buttons of the selectors

    components/BloodTypeSelector.tsx, components/UrgencySelector.tsx and
    the units row of the create-request screen draw one button per option
    and highlight those with [selected === option]. *)

Module Selectors.

Definition highlighted (selected : string) (options : list string)
  : list string :=
  filter (fun option => String.eqb selected option) options.

End Selectors.

(** ** The address line built from reverse geocoding

    [getCurrentLocation] of the create-request screen and of the donor
    profile screen: [[...].filter(Boolean).join(', ')]. *)

Module Address.

(** [parts.filter(Boolean)] on strings that may be null: the non-empty
    ones. *)
Fixpoint filter_Boolean (parts : list (option string)) : list string :=
  match parts with
  | [] => []
  | Some (String c rest) :: more => String c rest :: filter_Boolean more
  | _ :: more => filter_Boolean more
  end.

(** [arr.join(sep)]. *)
Fixpoint join (sep : string) (arr : list string) : string :=
  match arr with
  | [] => ""
  | [x] => x
  | x :: rest => String.append x (String.append sep (join sep rest))
  end.

Definition address_line (parts : list (option string)) : string :=
  join ", " (filter_Boolean parts).

(** The create-request screen uses street, city and region; the donor
    profile screen adds the country. *)
Definition create_request_address (street city region : option string)
  : string :=
  address_line [street; city; region].

Definition donor_profile_address (street city region country : option string)
  : string :=
  address_line [street; city; region; country].

Definition total_length (l : list string) : nat :=
  fold_right (fun x n => (String.length x + n)%nat) 0%nat l.

End Address.

(** * Properties *)

Module JSFacts.
Import JS.

Lemma includes_In (x : string) (arr : list string) :
  includes x arr = true <-> In x arr.
Proof.
  unfold includes. rewrite existsb_exists. split.
  - intros [y [Hy Heq]]. apply String.eqb_eq in Heq. now subst.
  - intros H. exists x. split; [assumption | apply String.eqb_refl].
Qed.

Lemma includes_false (x : string) (arr : list string) :
  ~ In x arr -> includes x arr = false.
Proof.
  intros H. destruct (includes x arr) eqn:E; [|reflexivity].
  apply includes_In in E. contradiction.
Qed.

End JSFacts.

Module BloodTypesFacts.
Import BloodTypes.

Lemma scan_is_filter (r : string) (entries : list (string * list string))
      (acc : list string) :
  fold_left (scan_step r) entries acc =
  acc ++ map fst (filter (fun e => JS.includes r (snd e)) entries).
Proof.
  revert acc. induction entries as [|[d rs] rest IH]; intros acc; simpl.
  - now rewrite app_nil_r.
  - rewrite IH. unfold JS.push. destruct (JS.includes r rs); simpl.
    + now rewrite <- app_assoc.
    + reflexivity.
Qed.

Lemma getCompatibleDonorTypes_filter (r : string) :
  getCompatibleDonorTypes r =
  map fst (filter (fun e => JS.includes r (snd e)) BLOOD_COMPATIBILITY).
Proof. unfold getCompatibleDonorTypes. now rewrite scan_is_filter. Qed.

Lemma recipients_known :
  Forall (fun e => incl (snd e) BLOOD_TYPES) BLOOD_COMPATIBILITY.
Proof.
  unfold BLOOD_COMPATIBILITY.
  repeat (apply Forall_cons; [apply incl_Forall_in_iff; simpl;
    repeat (apply Forall_cons; [unfold BLOOD_TYPES; simpl; tauto|]);
    apply Forall_nil|]).
  apply Forall_nil.
Qed.

Lemma In_BLOOD_TYPES (t : string) :
  In t BLOOD_TYPES ->
  t = "O-" \/ t = "O+" \/ t = "A-" \/ t = "A+" \/
  t = "B-" \/ t = "B+" \/ t = "AB-" \/ t = "AB+".
Proof. unfold BLOOD_TYPES. simpl. intuition. Qed.

Lemma abo_rh_rule_spec (d r : string) :
  abo_rh_rule d r = true <-> abo_subset d r /\ rh_ok d r.
Proof.
  unfold abo_rh_rule, abo_subset, rh_ok.
  destruct (antigen_A d), (antigen_A r), (antigen_B d), (antigen_B r),
    (rh_positive d), (rh_positive r); simpl; intuition discriminate.
Qed.

Ltac each_blood_type H :=
  apply In_BLOOD_TYPES in H;
  repeat (destruct H as [H | H]); subst.

Lemma table_matches_rule (d r : string) :
  In d BLOOD_TYPES -> In r BLOOD_TYPES ->
  canDonateTo d r = abo_rh_rule d r.
Proof.
  intros Hd Hr. each_blood_type Hd; each_blood_type Hr; reflexivity.
Qed.

(** Reading an association list with distinct keys back through a filter
    on the values. *)
Lemma get_filter_keys {A} (P : A -> bool) (l : list (string * A))
      (k : string) :
  NoDup (map fst l) ->
  In k (map fst (filter (fun e => P (snd e)) l)) <->
  exists v, JS.get l k = Some v /\ P v = true.
Proof.
  induction l as [|[k0 v0] rest IH]; simpl; intros Hnd.
  - split; [tauto | intros [v [H _]]; discriminate].
  - inversion Hnd as [|? ? Hnotin Hnd']; subst.
    specialize (IH Hnd').
    destruct (String.eqb_spec k0 k) as [->|Hne].
    + split.
      * intros Hin. destruct (P v0) eqn:EP.
        -- now exists v0.
        -- exfalso. apply Hnotin.
           apply in_map_iff in Hin. destruct Hin as [[k1 v1] [Hk Hin]].
           apply filter_In in Hin. simpl in Hk. subst k1.
           apply in_map_iff. exists (k, v1). tauto.
      * intros [v [Hv HP]]. injection Hv as ->. rewrite HP. now left.
    + rewrite <- IH. destruct (P v0); simpl; [|tauto].
      split; [intros [H|H]; [contradiction | assumption] | tauto].
Qed.

Lemma table_keys_distinct : NoDup (map fst BLOOD_COMPATIBILITY).
Proof.
  simpl. repeat (constructor; [simpl; intuition discriminate|]).
  constructor.
Qed.

(** ** C2 *)

(** Claim C2. For every ordered pair (d, r) of the eight blood types,
    r is listed in [BLOOD_COMPATIBILITY[d]] exactly when d's ABO antigens
    are among r's and d is Rh-negative or r is Rh-positive; moreover
    O- donates to r and d donates to AB+. *)
Theorem canDonateTo_is_abo_rh (d r : string) :
  In d BLOOD_TYPES -> In r BLOOD_TYPES ->
  (canDonateTo d r = true <-> abo_subset d r /\ rh_ok d r) /\
  canDonateTo "O-" r = true /\
  canDonateTo d "AB+" = true.
Proof.
  intros Hd Hr. split; [|split].
  - rewrite (table_matches_rule d r Hd Hr). apply abo_rh_rule_spec.
  - each_blood_type Hr; reflexivity.
  - each_blood_type Hd; reflexivity.
Qed.

Lemma canDonateTo_is_abo_rh_witness :
  (canDonateTo "A-" "AB+" = true <->
     abo_subset "A-" "AB+" /\ rh_ok "A-" "AB+") /\
  canDonateTo "O-" "AB+" = true /\
  canDonateTo "A-" "AB+" = true.
Proof.
  apply (canDonateTo_is_abo_rh "A-" "AB+"); unfold BLOOD_TYPES; simpl; tauto.
Defined.

(** ** C3 *)

(** Claim C3. For any two of the eight blood types d and r, d is returned
    by [getCompatibleDonorTypes r] exactly when r is an element of
    [BLOOD_COMPATIBILITY[d]]. *)
Theorem reverse_lookup_agrees (d r : string) :
  In d BLOOD_TYPES -> In r BLOOD_TYPES ->
  In d (getCompatibleDonorTypes r) <->
  exists recipients,
    JS.get BLOOD_COMPATIBILITY d = Some recipients /\ In r recipients.
Proof.
  intros _ _. rewrite getCompatibleDonorTypes_filter.
  rewrite (get_filter_keys (JS.includes r) BLOOD_COMPATIBILITY d
             table_keys_distinct).
  split; intros [rs [Hget Hin]]; exists rs; split; try assumption;
    now apply JSFacts.includes_In.
Qed.

Lemma reverse_lookup_agrees_witness :
  In "B-" (getCompatibleDonorTypes "AB-") <->
  exists recipients,
    JS.get BLOOD_COMPATIBILITY "B-" = Some recipients /\
    In "AB-" recipients.
Proof.
  apply (reverse_lookup_agrees "B-" "AB-"); unfold BLOOD_TYPES; simpl; tauto.
Defined.

(** ** C4 *)

(** Claim C4. [getCompatibleDonorTypes "AB+"] holds all eight blood types
    and [getCompatibleDonorTypes "O-"] holds the single type O-. *)
Theorem universal_recipient_and_donor :
  getCompatibleDonorTypes "AB+" = BLOOD_TYPES /\
  (forall t, In t BLOOD_TYPES -> In t (getCompatibleDonorTypes "AB+")) /\
  getCompatibleDonorTypes "O-" = ["O-"].
Proof.
  split; [reflexivity | split; [|reflexivity]].
  intros t Ht. exact Ht.
Qed.

(** ** C5 *)

(** Claim C5 as stated fails: the string "Z" is none of the eight types,
    and the lookup returns normally, with the empty array. *)
Lemma unknown_type_is_not_rejected :
  ~ (forall s, ~ In s BLOOD_TYPES ->
       call_getCompatibleDonorTypes s = Thrown UnknownBloodType) /\
  ~ In "Z" BLOOD_TYPES /\
  call_getCompatibleDonorTypes "Z" = Returned [].
Proof.
  assert (HZ : ~ In "Z" BLOOD_TYPES)
    by (unfold BLOOD_TYPES; simpl; intuition discriminate).
  split; [|split; [exact HZ | reflexivity]].
  intros H. specialize (H "Z" HZ). discriminate H.
Qed.

(** Claim C5, amended. For every string that is not one of the eight
    blood types, [getCompatibleDonorTypes] returns the empty array as a
    normal result, and no row of the table lists the string as a
    recipient. *)
Theorem unknown_type_yields_empty (s : string) :
  ~ In s BLOOD_TYPES ->
  call_getCompatibleDonorTypes s = Returned [] /\
  getCompatibleDonorTypes s = [] /\
  (forall d recipients,
      In (d, recipients) BLOOD_COMPATIBILITY ->
      JS.includes s recipients = false).
Proof.
  intros Hs.
  assert (Hrow : forall d recipients,
             In (d, recipients) BLOOD_COMPATIBILITY ->
             JS.includes s recipients = false).
  { intros d rs Hin. apply JSFacts.includes_false. intros Hc.
    pose proof recipients_known as Hk.
    rewrite Forall_forall in Hk. apply (Hk _ Hin) in Hc. contradiction. }
  assert (Hnil : getCompatibleDonorTypes s = []).
  { rewrite getCompatibleDonorTypes_filter.
    assert (Hf : forall l : list (string * list string),
               incl l BLOOD_COMPATIBILITY ->
               filter (fun e => JS.includes s (snd e)) l = []).
    { induction l as [|[d rs] l IH]; intros Hl; simpl; [reflexivity|].
      rewrite (Hrow d rs) by (apply Hl; now left).
      apply IH. intros x Hx. apply Hl. now right. }
    rewrite Hf by apply incl_refl. reflexivity. }
  unfold call_getCompatibleDonorTypes. rewrite Hnil. auto.
Qed.

Lemma unknown_type_yields_empty_witness :
  call_getCompatibleDonorTypes "C+" = Returned [] /\
  getCompatibleDonorTypes "C+" = [] /\
  (forall d recipients,
      In (d, recipients) BLOOD_COMPATIBILITY ->
      JS.includes "C+" recipients = false).
Proof.
  apply (unknown_type_yields_empty "C+").
  unfold BLOOD_TYPES; simpl; intuition discriminate.
Defined.

End BloodTypesFacts.

Module CreateRequestFacts.
Import CreateRequest.

(** The selector only ever holds one of its options. *)
Lemma reachable_unit_option {coord} (f : Form coord) :
  reachable f -> In (unitsNeeded f) UNIT_OPTIONS.
Proof.
  induction 1 as [|f f' _ IH Hstep].
  - simpl. now left.
  - destruct Hstep; simpl; assumption.
Qed.



(** The form submits whenever a blood type is selected. *)
Lemma handleSubmit_submits {coord} (f : Form coord) :
  bloodType f <> "" -> exists p, handleSubmit f = Some p.
Proof.
  unfold handleSubmit. destruct (bloodType f); [congruence|].
  intros _. eexists. reflexivity.
Qed.

(** [parseInt] on the options of the selector and on other text. *)
Example parseInt_examples :
  map parseInt UNIT_OPTIONS = [Num 1; Num 2; Num 3; Num 4; Num 5] /\
  parseInt "" = NaN /\
  parseInt "units" = NaN /\
  parseInt "  12px" = Num 12 /\
  parseInt "0x1F" = Num 31 /\
  parseInt "-0" = Num 0 /\
  parseInt "9007199254740992" = Num (2 ^ 53) /\
  parseInt "9007199254740993" = Huge false /\
  or_else (parseInt "-0") (Num 1) = Num 1 /\
  or_else (parseInt "-3") (Num 1) = Num (-3).
Proof. repeat split. Qed.

(** ** C8 *)


Lemma sample_form_reachable : reachable sample_form.
Proof.
  unfold sample_form.
  apply reach_step
    with (f := mkForm Z "B+" "5+" "urgent" "" "" "" "" None None).
  apply reach_step
    with (f := mkForm Z "B+" "5+" "normal" "" "" "" "" None None).
  apply reach_step
    with (f := mkForm Z "B+" "1" "normal" "" "" "" "" None None).
  apply reach_step with (f := initial).
  - constructor.
  - apply (select_blood_type Z initial "B+"). simpl. tauto.
  - apply (press_unit Z (mkForm Z "B+" "1" "normal" "" "" "" "" None None)
             "5+"). simpl. tauto.
  - apply (select_urgency Z
             (mkForm Z "B+" "5+" "normal" "" "" "" "" None None)
             "urgent"). simpl. tauto.
  - apply (type_hospital_name Z
             (mkForm Z "B+" "5+" "urgent" "" "" "" "" None None)
             "General Hospital").
Qed.


End CreateRequestFacts.

Module AuthStoreFacts.
Import AuthStore.
Local Open Scope auth_scope.

Lemma keeps_ret {A} (a : A) : keeps (ret a).
Proof. intros w H. split; [exact H|]. exists []. now split. Qed.

Lemma keeps_throw {A} (e : error) : keeps (@throw A e).
Proof. intros w H. split; [exact H|]. exists []. now split. Qed.

Lemma keeps_get : keeps get.
Proof. intros w H. split; [exact H|]. exists []. now split. Qed.

Lemma keeps_bind {A B} (m : M A) (k : A -> M B) :
  keeps m -> (forall a, keeps (k a)) -> keeps (bind m k).
Proof.
  intros Hm Hk w Hw. unfold bind.
  destruct (Hm w Hw) as [H1 [fresh1 [Hlog1 Hall1]]].
  destruct (m w) as [[a|e] w1]; simpl in *.
  - destruct (Hk a w1 H1) as [H2 [fresh2 [Hlog2 Hall2]]].
    split; [exact H2|]. exists (fresh2 ++ fresh1). split.
    + rewrite Hlog2, Hlog1. now rewrite app_assoc.
    + apply Forall_app. now split.
  - split; [exact H1|]. now exists fresh1.
Qed.

Lemma keeps_try_catch {A} (m : M A) (handler : error -> M A) :
  keeps m -> (forall e, keeps (handler e)) -> keeps (try_catch m handler).
Proof.
  intros Hm Hh w Hw. unfold try_catch.
  destruct (Hm w Hw) as [H1 [fresh1 [Hlog1 Hall1]]].
  destruct (m w) as [[a|e] w1]; simpl in *.
  - split; [exact H1|]. now exists fresh1.
  - destruct (Hh e w1 H1) as [H2 [fresh2 [Hlog2 Hall2]]].
    split; [exact H2|]. exists (fresh2 ++ fresh1). split.
    + rewrite Hlog2, Hlog1. now rewrite app_assoc.
    + apply Forall_app. now split.
Qed.

Lemma keeps_storage_call {A} (f : Disk -> A * Disk) :
  keeps (storage_call f).
Proof.
  intros w H. unfold storage_call.
  destruct (faults w) as [|[|] rest]; simpl;
    try destruct (f (disk w)); simpl;
    (split; [exact H | exists []; now split]).
Qed.

Lemma keeps_await {A} (r : response A) : keeps (await r).
Proof. destruct r; [apply keeps_ret | apply keeps_throw]. Qed.

Lemma merge_ok (p : Patch) (st : AuthState) :
  patch_ok p ->
  authenticated_iff_token st ->
  authenticated_iff_token (merge p st).
Proof.
  unfold patch_ok, authenticated_iff_token, merge.
  destruct (set_token p) as [[t|]|], (set_isAuthenticated p) as [[|]|];
    simpl; intros Hp Hst; try contradiction; try exact Hst.
  - split; [discriminate | reflexivity].
  - split; [discriminate | congruence].
Qed.

Lemma keeps_set (p : Patch) : patch_ok p -> keeps (set p).
Proof.
  intros Hp w Hw. unfold set; simpl.
  pose proof (merge_ok p (store w) Hp Hw) as Hm.
  split; [exact Hm|]. exists [merge p (store w)]. split; [reflexivity|].
  now constructor.
Qed.

Create HintDb keeps.
#[local] Hint Resolve keeps_ret keeps_throw keeps_get keeps_storage_call
  keeps_await : keeps.

Ltac keeps_step :=
  first
    [ apply keeps_bind; [|intros ?]
    | apply keeps_try_catch; [|intros ?]
    | apply keeps_set; exact I
    | unfold AsyncStorage_getItem, AsyncStorage_setItem,
        AsyncStorage_removeItem; solve [auto with keeps] ].

Section Store.

Variable JSON_stringify : User -> string.
Variable JSON_parse : string -> option (option User).

Lemma keeps_login email password resp :
  keeps (login JSON_stringify email password resp).
Proof. unfold login. repeat keeps_step. Qed.

Lemma keeps_register data resp :
  keeps (register JSON_stringify data resp).
Proof. unfold register. repeat keeps_step. Qed.

Lemma keeps_logout : keeps logout.
Proof. unfold logout. repeat keeps_step. Qed.

Lemma keeps_loadUser me :
  keeps (loadUser JSON_stringify JSON_parse me).
Proof.
  unfold loadUser.
  apply keeps_try_catch; [|intros _; repeat keeps_step].
  apply keeps_bind; [repeat keeps_step | intros tok].
  apply keeps_bind; [repeat keeps_step | intros userStr].
  destruct tok as [[|c tok]|]; simpl; try solve [repeat keeps_step].
  destruct (truthy userStr); try solve [repeat keeps_step].
  apply keeps_bind; [|intros u; repeat keeps_step].
  destruct (JSON_parse _); auto with keeps.
Qed.

Lemma keeps_updateDonorProfile profile resp :
  keeps (updateDonorProfile JSON_stringify profile resp).
Proof. unfold updateDonorProfile. repeat keeps_step. Qed.

Lemma keeps_refreshUser resp :
  keeps (refreshUser JSON_stringify resp).
Proof.
  unfold refreshUser.
  apply keeps_bind; [apply keeps_get | intros st].
  destruct (negb _); [apply keeps_ret | repeat keeps_step].
Qed.

End Store.

(** A stored session whose token the server no longer accepts: the
    store is first authenticated from storage, then logged out; the
    removal of the stored token is rejected here, which only ends the
    loading state. *)
Example loadUser_expired_token :
  let u := mkUser "7" "d@x.org" "D" "1" "donor" None "t" in
  let w := mkWorld initial (mkDisk (Some "jwt") (Some "u"))
                   [false; false; true] [] in
  let w' := snd (loadUser (fun _ => "u") (fun _ => Some (Some u))
                          (Rejected None) w) in
  store w' = mkAuthState None None false false /\
  log w' = [ mkAuthState None None false false;
             mkAuthState None None false false;
             mkAuthState (Some u) (Some "jwt") false true ] /\
  disk w' = mkDisk (Some "jwt") (Some "u").
Proof. repeat split. Qed.

(** ** C9 *)

(** Claim C9. [isAuthenticated] is true exactly when [token] is not null:
    the initial state satisfies this, and from any store that satisfies it
    every operation (login, register, logout, loadUser, updateDonorProfile,
    refreshUser), whatever the server answers and whichever storage calls
    reject, ends in a store that satisfies it, as does every intermediate
    store it sets on the way. *)
Theorem authenticated_iff_token_invariant
        (JSON_stringify : User -> string)
        (JSON_parse : string -> option (option User))
        (c : call) (w : World) :
  authenticated_iff_token (store w) ->
  authenticated_iff_token initial /\
  authenticated_iff_token
    (store (snd (run JSON_stringify JSON_parse c w))) /\
  exists fresh,
    log (snd (run JSON_stringify JSON_parse c w)) = fresh ++ log w /\
    Forall authenticated_iff_token fresh.
Proof.
  intros Hw. split.
  - unfold authenticated_iff_token, initial; simpl.
    split; [discriminate | congruence].
  - revert w Hw. change (keeps (run JSON_stringify JSON_parse c)).
    destruct c; simpl.
    + apply keeps_login.
    + apply keeps_register.
    + apply keeps_logout.
    + apply keeps_loadUser.
    + apply keeps_updateDonorProfile.
    + apply keeps_refreshUser.
Qed.

Lemma authenticated_iff_token_invariant_witness :
  let w := mkWorld initial (mkDisk (Some "jwt") (Some "u")) [false; false; true]
                   [initial] in
  let c := LoadUser (Rejected None) in
  let parse := fun _ : string =>
                 Some (Some (mkUser "7" "d@x.org" "D" "1" "donor" None "t")) in
  authenticated_iff_token initial /\
  authenticated_iff_token (store (snd (run (fun _ => "u") parse c w))) /\
  exists fresh,
    log (snd (run (fun _ => "u") parse c w)) = fresh ++ log w /\
    Forall authenticated_iff_token fresh.
Proof.
  intros w c parse.
  apply (authenticated_iff_token_invariant (fun _ => "u") parse c w).
  unfold authenticated_iff_token; simpl.
  split; [discriminate | congruence].
Defined.

End AuthStoreFacts.

Module NotificationsFacts.
Import Http Notifications.

Section Screen.

Variable any : Type.
Variable request_id : any -> option string.

Abbreviation Notification := (Notifications.Notification any).

Lemma mark_read_frame (n : Notification) :
  same_but_is_read n (mark_read n) /\ is_read (mark_read n) = true.
Proof. unfold same_but_is_read, mark_read; simpl. tauto. Qed.

Lemma same_but_is_read_refl (n : Notification) : same_but_is_read n n.
Proof. unfold same_but_is_read. tauto. Qed.

Lemma Forall2_map_self {A} (R : A -> A -> Prop) (f : A -> A) (l : list A) :
  (forall a, In a l -> R a (f a)) -> Forall2 R l (map f l).
Proof.
  induction l as [|a l IH]; intros H; simpl; constructor.
  - apply H. now left.
  - apply IH. intros b Hb. apply H. now right.
Qed.

Lemma Forall2_self {A} (R : A -> A -> Prop) (l : list A) :
  (forall a, In a l -> R a a) -> Forall2 R l l.
Proof.
  intros H. rewrite <- (map_id l) at 2. now apply Forall2_map_self.
Qed.

(** Two entries of a list with distinct ids are equal when their ids
    are. *)
Lemma same_id_same_entry (l : list Notification) (a b : Notification) :
  NoDup (map id l) -> In a l -> In b l -> id a = id b -> a = b.
Proof.
  induction l as [|x l IH]; simpl; intros Hnd Ha Hb Hid; [contradiction|].
  inversion Hnd as [|? ? Hx Hnd']; subst.
  destruct Ha as [->|Ha], Hb as [->|Hb].
  - reflexivity.
  - exfalso. apply Hx. rewrite Hid. now apply in_map.
  - exfalso. apply Hx. rewrite <- Hid. now apply in_map.
  - now apply IH.
Qed.

(** The press handler, entry by entry, whatever the ids are. *)
Lemma press_pointwise (pressed : Notification) (markRead : response unit)
      (prev : list Notification) :
  Forall2
    (fun n n' =>
       n' = if negb (is_read pressed) && resolved markRead
               && String.eqb (id n) (id pressed)
            then mark_read n else n)
    prev (fst (handleNotificationPress request_id pressed markRead prev)).
Proof.
  unfold handleNotificationPress; simpl.
  destruct (is_read pressed), markRead as [[]|detail]; simpl;
    try (apply Forall2_self; now intros).
  apply Forall2_map_self. now intros.
Qed.

Lemma Forall2_impl_In {A B} (R R' : A -> B -> Prop) (l : list A)
      (l' : list B) :
  (forall a b, In a l -> R a b -> R' a b) ->
  Forall2 R l l' -> Forall2 R' l l'.
Proof.
  intros H HF. induction HF as [|a b l l' Hab HF IH]; constructor.
  - apply H; [now left | assumption].
  - apply IH. intros x y Hx. apply H. now right.
Qed.

Lemma mark_all_pointwise (markAll : response unit)
      (prev : list Notification) :
  Forall2 (fun n n' => n' = if resolved markAll then mark_read n else n)
          prev (handleMarkAllRead markAll prev).
Proof.
  unfold handleMarkAllRead. destruct markAll as [[]|detail]; simpl.
  - apply Forall2_map_self. now intros.
  - apply Forall2_self. now intros.
Qed.

(** ** C10 *)

(** Claim C10, amended. For every notification list, pressing a
    notification and marking all as read return a list of the same
    length whose entries are, position by position, the old entries with
    at most [is_read] changed, and never from true to false.  A press
    leaves every entry with another id untouched and, when it marks (the
    pressed notification is unread and the server call resolves), sets
    [is_read] on every entry that carries the pressed id; when the ids
    of the list are distinct and the pressed notification is in it, that
    is exactly the pressed notification.  Marking all sets [is_read] on
    every entry when the server call resolves.  A press on a
    notification that is already read, and either handler when its
    server call is rejected, leave the list as it is. *)
Theorem marking_read_changes_only_is_read
        (pressed : Notification) (markRead markAll : response unit)
        (prev : list Notification) :
  let next := fst (handleNotificationPress request_id pressed markRead
                                           prev) in
  let all := handleMarkAllRead markAll prev in
  length next = length prev /\
  Forall2 (fun n n' =>
             same_but_is_read n n' /\
             (is_read n = true -> is_read n' = true) /\
             (id n <> id pressed -> n' = n))
          prev next /\
  (is_read pressed = false -> resolved markRead = true ->
   Forall2 (fun n n' => id n = id pressed -> is_read n' = true)
           prev next) /\
  (NoDup (map id prev) -> In pressed prev ->
   Forall2 (fun n n' =>
              (n <> pressed -> n' = n) /\
              (n = pressed -> resolved markRead = true ->
               is_read n' = true))
           prev next) /\
  length all = length prev /\
  Forall2 (fun n n' =>
             same_but_is_read n n' /\
             (is_read n = true -> is_read n' = true))
          prev all /\
  (resolved markAll = true -> Forall (fun n' => is_read n' = true) all) /\
  (is_read pressed = true \/ resolved markRead = false -> next = prev) /\
  (resolved markAll = false -> all = prev).
Proof.
  intros next all.
  assert (Hsame : is_read pressed = true \/ resolved markRead = false ->
                  next = prev).
  { unfold next, handleNotificationPress; simpl.
    destruct (is_read pressed), markRead as [[]|detail]; simpl;
      intros [H|H]; try discriminate; reflexivity. }
  assert (Hrejected : resolved markAll = false -> all = prev).
  { unfold all, handleMarkAllRead.
    destruct markAll as [[]|detail]; simpl; intros H;
      [discriminate | reflexivity]. }
  pose proof (press_pointwise pressed markRead prev) as Hpress.
  pose proof (mark_all_pointwise markAll prev) as Hall.
  fold next in Hpress. fold all in Hall.
  split; [symmetry; exact (Forall2_length Hpress)|].
  split.
  { apply Forall2_impl_In with (2 := Hpress).
    intros n n' _ ->.
    destruct (negb (is_read pressed) && resolved markRead
              && String.eqb (id n) (id pressed)) eqn:E.
    - split; [apply mark_read_frame|]. split; [reflexivity|].
      intros Hne. apply andb_true_iff in E. destruct E as [_ E].
      apply String.eqb_eq in E. contradiction.
    - split; [apply same_but_is_read_refl|]. auto. }
  split.
  { intros Hunread Hres. apply Forall2_impl_In with (2 := Hpress).
    intros n n' _ -> Hid. rewrite Hunread, Hres, Hid, String.eqb_refl.
    reflexivity. }
  split.
  { intros Hnd Hin. apply Forall2_impl_In with (2 := Hpress).
    intros n n' Hn ->. split.
    - intros Hne.
      destruct (String.eqb_spec (id n) (id pressed)) as [Hid|Hid].
      + exfalso. apply Hne.
        exact (same_id_same_entry prev n pressed Hnd Hn Hin Hid).
      + now rewrite andb_false_r.
    - intros Heq Hres. subst n. rewrite Hres, String.eqb_refl.
      destruct (is_read pressed) eqn:En; simpl; [exact En | reflexivity]. }
  split; [symmetry; exact (Forall2_length Hall)|].
  split.
  { apply Forall2_impl_In with (2 := Hall). intros n n' _ ->.
    destruct (resolved markAll).
    - split; [apply mark_read_frame | reflexivity].
    - split; [apply same_but_is_read_refl | auto]. }
  split; [|split; assumption].
  intros Hres. rewrite Hres in Hall. clear - Hall.
  induction Hall as [|n n' l l' -> _ IH]; constructor; [reflexivity|].
  exact IH.
Qed.

End Screen.

(** Claim C10 as stated fails for some lists and some calls.  The press
    handler selects by id: in a list where a second notification carries
    the id of the pressed one, both are marked, so another notification
    than the pressed one changes.  And when the server call is rejected,
    the pressed notification is not marked at all. *)
Lemma press_marks_by_id_and_only_on_success :
  let n1 := mkNotification unit "n1" "u" "Match" "m1" "match" false None
                           "t1" in
  let n2 := mkNotification unit "n1" "u" "Request" "m2" "request" false
                           None "t2" in
  let prev := [n1; n2] in
  let next := fst (handleNotificationPress (fun _ => None) n1 (Resolved tt)
                                           prev) in
  let kept := fst (handleNotificationPress (fun _ => None) n1
                                           (Rejected None) prev) in
  n2 <> n1 /\
  next = [mark_read n1; mark_read n2] /\
  ~ Forall2 (fun n n' => n <> n1 -> n' = n) prev next /\
  kept = prev /\
  ~ Forall2 (fun n n' => n = n1 -> is_read n' = true) prev kept.
Proof.
  intros n1 n2 prev next kept.
  split; [discriminate|]. split; [reflexivity|].
  split; [|split; [reflexivity|]].
  - intros H. inversion H as [|? ? ? ? _ Hrest]; subst.
    inversion Hrest as [|? ? ? ? Hn2 _]; subst.
    assert (Hne : n2 <> n1) by discriminate.
    specialize (Hn2 Hne). discriminate Hn2.
  - intros H. inversion H as [|? ? ? ? Hn1 _]; subst.
    specialize (Hn1 eq_refl). discriminate Hn1.
Qed.

Lemma marking_read_changes_only_is_read_witness :
  let n1 := mkNotification unit "n1" "u" "Match" "m1" "match" true None "t1" in
  let n2 := mkNotification unit "n2" "u" "Request" "m2" "request" false
                           (Some tt) "t2" in
  let prev := [n1; n2] in
  let next := fst (handleNotificationPress (fun _ => Some "r9") n2
                                           (Resolved tt) prev) in
  (is_read n2 = false /\ resolved (Resolved tt) = true /\
   NoDup (map id prev) /\ In n2 prev) /\
  Forall2 (fun n n' => id n = id n2 -> is_read n' = true) prev next /\
  Forall2 (fun n n' =>
             (n <> n2 -> n' = n) /\
             (n = n2 -> resolved (Resolved tt) = true ->
              is_read n' = true))
          prev next.
Proof.
  intros n1 n2 prev next.
  assert (Hnd : NoDup (map id prev)).
  { simpl. repeat constructor; simpl; intuition discriminate. }
  assert (Hin : In n2 prev) by (simpl; tauto).
  destruct (marking_read_changes_only_is_read
              unit (fun _ => Some "r9") n2 (Resolved tt) (Resolved tt) prev)
    as [_ [_ [Hset [Hexact _]]]].
  exact (conj (conj eq_refl (conj eq_refl (conj Hnd Hin)))
              (conj (Hset eq_refl eq_refl) (Hexact Hnd Hin))).
Defined.

(** A press on the unread second notification of three marks it and
    nothing else; marking all marks all three. *)
Example press_second_of_three :
  let n1 := mkNotification unit "n1" "u" "Match" "m1" "match" true None "t1" in
  let n2 := mkNotification unit "n2" "u" "Request" "m2" "request" false
                           (Some tt) "t2" in
  let n3 := mkNotification unit "n3" "u" "Thanks" "m3" "donation" false None
                           "t3" in
  handleNotificationPress (fun _ => Some "r9") n2 (Resolved tt) [n1; n2; n3]
    = ([n1; mark_read n2; n3], Some "/request/r9") /\
  handleNotificationPress (fun _ => Some "r9") n2 (Rejected None)
                          [n1; n2; n3]
    = ([n1; n2; n3], Some "/request/r9") /\
  handleMarkAllRead (Resolved tt) [n1; n2; n3]
    = [n1; mark_read n2; mark_read n3].
Proof. repeat split. Qed.

End NotificationsFacts.

Module CoreFacts.
Import QArith_base Core.
Local Close Scope Q_scope.

Lemma locate_mark_accepted_other (d d' : string) (l : list DonorMatch) :
  d' <> d -> locate d' (mark_accepted d l) = locate d' l.
Proof.
  intros Hne. unfold locate.
  induction l as [|m l IH]; simpl; [reflexivity|].
  destruct (String.eqb_spec (donor_id m) d) as [Hd|Hd]; simpl.
  - destruct (String.eqb_spec (donor_id m) d') as [Hd'|Hd'];
      [congruence | reflexivity].
  - destruct (String.eqb (donor_id m) d'); [reflexivity | exact IH].
Qed.

(** What [acceptMatch] does to an open request for a proposed donor. *)
Lemma acceptMatch_open (r : BloodRequest) (d : string) :
  open r -> proposed_to r d ->
  exists m,
    fst (acceptMatch r d) = Ok m /\
    units_needed (snd (acceptMatch r d)) = units_needed r /\
    units_fulfilled (snd (acceptMatch r d)) = (units_fulfilled r + 1)%Z /\
    status (snd (acceptMatch r d)) =
      (if (units_fulfilled r + 1 =? units_needed r)%Z then fulfilled
       else status r) /\
    (forall d', d' <> d ->
                proposed_to r d' -> proposed_to (snd (acceptMatch r d)) d').
Proof.
  intros [Hterm Hroom] [m [Hloc Hprop]].
  unfold acceptMatch, check, commit. rewrite Hloc, Hprop, Hterm.
  assert (Hlt : (units_fulfilled r <? units_needed r)%Z = true)
    by (apply Z.ltb_lt; lia).
  rewrite Hlt. simpl. exists (accept m). repeat split.
  intros d' Hne [m' [Hloc' Hprop']]. exists m'. split; [|exact Hprop'].
  simpl. now rewrite locate_mark_accepted_other.
Qed.

(** What it does once the request is terminal. *)
Lemma acceptMatch_terminal (r : BloodRequest) (d : string) :
  terminal (status r) = true ->
  snd (acceptMatch r d) = r /\
  (proposed_to r d -> fst (acceptMatch r d) = Err RequestTerminal) /\
  (locate d (matched_donors r) = None ->
   fst (acceptMatch r d) = Err MatchNotFound) /\
  (forall m, locate d (matched_donors r) = Some m ->
             match_status m <> proposed ->
             fst (acceptMatch r d) = Err AlreadyDecided) /\
  is_ok (fst (acceptMatch r d)) = false.
Proof.
  intros Hterm. unfold acceptMatch, check, commit, proposed_to.
  rewrite Hterm.
  destruct (locate d (matched_donors r)) as [m|] eqn:Hloc.
  - destruct (match_status m) eqn:Hst; simpl; repeat split; trivial;
      try (intros [m' [Hm' Hp]]; congruence);
      try discriminate; try (intros m' Hm' Hp; congruence).
  - simpl. repeat split; trivial; try discriminate.
    intros [m' [Hm' _]]. discriminate.
Qed.

Lemma acceptMatch_counter (r : BloodRequest) (d : string) :
  counter_ok r ->
  counter_ok (snd (acceptMatch r d)) /\
  units_needed (snd (acceptMatch r d)) = units_needed r.
Proof.
  unfold counter_ok, acceptMatch, check, commit. intros H.
  destruct (locate d (matched_donors r)) as [m|]; [|now split].
  destruct (match_status m); try now split.
  destruct (terminal (status r)); [now split|].
  destruct (Z.ltb_spec (units_fulfilled r) (units_needed r));
    simpl; split; trivial; lia.
Qed.

Lemma cancelRequest_counter (r : BloodRequest) :
  counter_ok r -> counter_ok (cancelRequest r).
Proof. unfold counter_ok, cancelRequest. destruct (status r); auto. Qed.

Lemma history_counter (ops : list operation) (r : BloodRequest) :
  counter_ok r -> Forall counter_ok (history r ops).
Proof.
  revert r. induction ops as [|op ops IH]; intros r Hr; simpl;
    constructor.
  - destruct op; simpl;
      [apply acceptMatch_counter | apply cancelRequest_counter]; exact Hr.
  - apply IH. destruct op; simpl;
      [apply acceptMatch_counter | apply cancelRequest_counter]; exact Hr.
Qed.

Lemma acceptAll_cons (r : BloodRequest) (d : string) (rest : list string) :
  acceptAll r (d :: rest) =
  (fst (acceptMatch r d) :: fst (acceptAll (snd (acceptMatch r d)) rest),
   snd (acceptMatch r d) :: snd (acceptAll (snd (acceptMatch r d)) rest)).
Proof.
  simpl. destruct (acceptMatch r d) as [res r']. simpl.
  now destruct (acceptAll r' rest).
Qed.

(** The states of a run of accepts are those of the same run of
    operations. *)
Lemma acceptAll_history (donors : list string) (r : BloodRequest) :
  snd (acceptAll r donors) = history r (map AcceptMatch donors).
Proof.
  revert r. induction donors as [|d rest IH]; intros r; [reflexivity|].
  rewrite acceptAll_cons. simpl. now rewrite IH.
Qed.

(** Once the request is terminal every further call by a proposed donor
    fails with RequestTerminal and changes nothing. *)
Lemma acceptAll_terminal (donors : list string) (r : BloodRequest) :
  terminal (status r) = true ->
  Forall (proposed_to r) donors ->
  acceptAll r donors =
  (repeat (Err RequestTerminal) (length donors), repeat r (length donors)).
Proof.
  intros Hterm Hall. induction Hall as [|d rest Hd Hall IH];
    [reflexivity|].
  rewrite acceptAll_cons.
  destruct (acceptMatch_terminal r d Hterm) as [Hsame [Hres _]].
  rewrite Hsame, (Hres Hd), IH. reflexivity.
Qed.

Lemma last_cons {A} (a d : A) (l : list A) : last (a :: l) d = last l a.
Proof.
  revert a d. induction l as [|b l IH]; intros a d; [reflexivity|].
  change (last (a :: b :: l) d) with (last (b :: l) d).
  now rewrite !IH.
Qed.

Lemma last_repeat {A} (a : A) (n : nat) : last (repeat a n) a = a.
Proof.
  induction n as [|n IH]; [reflexivity|].
  simpl repeat. rewrite last_cons. exact IH.
Qed.

(** Accepts by distinct proposed donors on an open request: the first
    [k] succeed, where [k] is the smaller of the number of calls and the
    units still needed, and the others find the request fulfilled. *)
Lemma acceptAll_open (donors : list string) (r : BloodRequest) :
  open r -> NoDup donors -> Forall (proposed_to r) donors ->
  let k := Nat.min (length donors)
                   (Z.to_nat (units_needed r - units_fulfilled r)) in
  (exists oks,
      fst (acceptAll r donors) =
        oks ++ repeat (Err RequestTerminal) (length donors - k) /\
      length oks = k /\
      Forall (fun x => is_ok x = true) oks) /\
  units_fulfilled (final r (snd (acceptAll r donors))) =
    (units_fulfilled r + Z.of_nat k)%Z /\
  units_needed (final r (snd (acceptAll r donors))) = units_needed r /\
  ((units_needed r - units_fulfilled r <= Z.of_nat (length donors))%Z ->
   status (final r (snd (acceptAll r donors))) = fulfilled).
Proof.
  revert r. induction donors as [|d rest IH]; intros r Hopen Hnd Hall.
  - simpl. split; [exists []; repeat split; constructor|].
    destruct Hopen as [_ Hroom]. unfold final; simpl.
    repeat split; lia.
  - inversion Hnd as [|? ? Hnotin Hnd']; subst.
    inversion Hall as [|? ? Hd Hall']; subst.
    destruct (acceptMatch_open r d Hopen Hd)
      as [m [Hres [Hneed [Hful [Hstat Hkeep]]]]].
    assert (Hrest : Forall (proposed_to (snd (acceptMatch r d))) rest).
    { rewrite Forall_forall in *. intros d' Hd'. apply Hkeep.
      - intros ->. contradiction.
      - now apply Hall'. }
    rewrite acceptAll_cons. simpl fst. simpl snd.
    unfold final. rewrite last_cons. fold (final (snd (acceptMatch r d))
      (snd (acceptAll (snd (acceptMatch r d)) rest))).
    destruct Hopen as [Hterm Hroom].
    destruct (Z.eqb_spec (units_fulfilled r + 1) (units_needed r))
      as [Hsat|Hmore].
    + assert (Hterm' : terminal (status (snd (acceptMatch r d))) = true)
        by now rewrite Hstat.
      rewrite (acceptAll_terminal rest _ Hterm' Hrest). simpl fst. simpl snd.
      unfold final. rewrite last_repeat.
      replace (Z.to_nat (units_needed r - units_fulfilled r)) with 1%nat
        by lia.
      simpl length. replace (Nat.min (S (length rest)) 1) with 1%nat by lia.
      split.
      * exists [Ok m]. rewrite Hres. simpl.
        replace (length rest - 0)%nat with (length rest) by lia.
        repeat split. now constructor.
      * rewrite Hful, Hneed, Hstat. repeat split; lia.
    + assert (Hopen' : open (snd (acceptMatch r d))).
      { split; [now rewrite Hstat | rewrite Hful, Hneed; lia]. }
      destruct (IH _ Hopen' Hnd' Hrest)
        as [[oks [Hoks [Hlen Hok]]] [Hf [Hn Hs]]].
      rewrite Hneed, Hful in *.
      simpl length.
      replace (Nat.min (S (length rest))
                       (Z.to_nat (units_needed r - units_fulfilled r)))
        with (S (Nat.min (length rest)
                   (Z.to_nat (units_needed r - (units_fulfilled r + 1)))))
        by lia.
      split.
      * exists (Ok m :: oks). rewrite Hres, Hoks. simpl.
        repeat split; [now rewrite Hlen | now constructor].
      * rewrite Hf, Hn. repeat split; [lia|].
        intros Hle. apply Hs. lia.
Qed.

Lemma successes_shape (oks : list (Result DonorMatch)) (n : nat) :
  Forall (fun x => is_ok x = true) oks ->
  successes (oks ++ repeat (Err RequestTerminal) n) = length oks.
Proof.
  intros Hok. unfold successes. rewrite filter_app, length_app.
  assert (Hrep : filter is_ok (repeat (@Err DonorMatch RequestTerminal) n)
                 = []) by (induction n; simpl; auto).
  rewrite Hrep. simpl. rewrite Nat.add_0_r.
  induction Hok as [|x l Hx _ IH]; simpl; [reflexivity|].
  rewrite Hx. simpl. now rewrite IH.
Qed.

Lemma results_shape (oks : list (Result DonorMatch)) (n i : nat)
      (res : Result DonorMatch) :
  Forall (fun x => is_ok x = true) oks ->
  nth_error (oks ++ repeat (Err RequestTerminal) n) i = Some res ->
  (i < length oks -> is_ok res = true) /\
  (length oks <= i -> res = Err RequestTerminal).
Proof.
  intros Hok Hnth. split; intros Hi.
  - rewrite nth_error_app1 in Hnth by exact Hi.
    apply nth_error_In in Hnth. rewrite Forall_forall in Hok. auto.
  - rewrite nth_error_app2 in Hnth by exact Hi.
    apply nth_error_In in Hnth. now apply repeat_spec in Hnth.
Qed.

Section Creation.

Variable distance : Coordinate -> Coordinate -> QArith_base.Q.
Variable score : BloodRequest -> Donor -> QArith_base.Q -> QArith_base.Q.
Variable in_cooldown : Donor -> bool.
Variable radius_km : QArith_base.Q.
Variable top_n : nat.

(** A request is created open, with a sound counter, when at least one
    unit is asked for. *)
Lemma createRequest_open request_id requester type units u where_
      candidateDonors :
  (1 <= units)%Z ->
  let r := createRequest distance score in_cooldown radius_km top_n
                         request_id requester type units u where_
                         candidateDonors in
  counter_ok r /\ open r /\ status r = matching.
Proof.
  intros H. unfold counter_ok, open; simpl. repeat split; lia.
Qed.

End Creation.

(** *** Interleaved accepts *)

Lemma replace_middle {A} (l1 l2 : list A) (x y : A) :
  replace (length l1) y (l1 ++ x :: l2) = l1 ++ y :: l2.
Proof. induction l1 as [|a l1 IH]; simpl; [reflexivity | now rewrite IH]. Qed.

Lemma successes_app (a b : list (Result DonorMatch)) :
  successes (a ++ b) = (successes a + successes b)%nat.
Proof. unfold successes. now rewrite filter_app, length_app. Qed.

Lemma outcomes_middle (l1 l2 : list (string * phase)) (c : string * phase) :
  successes (flat_map outcome (l1 ++ c :: l2)) =
  (successes (flat_map outcome l1) + successes (outcome c)
   + successes (flat_map outcome l2))%nat.
Proof.
  rewrite flat_map_app. simpl. rewrite !successes_app. lia.
Qed.

Lemma start_ok (r : BloodRequest) (donors : list string) :
  open r -> NoDup donors -> Forall (proposed_to r) donors ->
  run_ok r (start r donors).
Proof.
  intros [Hterm Hroom] Hnd Hall. unfold run_ok, start, outcomes; simpl.
  assert (Hnone : flat_map outcome (map (fun d => (d, Waiting)) donors) = []).
  { clear. induction donors; simpl; auto. }
  rewrite Hnone. simpl.
  assert (Hfst : map fst (map (fun d : string => (d, Waiting)) donors)
                 = donors).
  { rewrite map_map. simpl. apply map_id. }
  rewrite Hfst.
  repeat split; try lia; try assumption.
  - destruct (Z.eqb_spec (units_fulfilled r) (units_needed r)); [lia|].
    exact Hterm.
  - apply Forall_map. revert Hall. apply Forall_impl. intros d Hd. exact Hd.
Qed.

(** Replacing one call by a call of the same donor. *)
Lemma advance_frame (r0 : BloodRequest) (s : Run) (r' : BloodRequest)
      (l1 l2 : list (string * phase)) (d : string) (ph ph' : phase) :
  calls s = l1 ++ (d, ph) :: l2 ->
  run_ok r0 s ->
  units_needed r' = units_needed r0 ->
  units_fulfilled r' =
    (units_fulfilled (request s)
     + Z.of_nat (successes (outcome (d, ph')))
     - Z.of_nat (successes (outcome (d, ph))))%Z ->
  (units_fulfilled r' <= units_needed r0)%Z ->
  (if (units_fulfilled r' =? units_needed r0)%Z
   then status r' = fulfilled
   else terminal (status r') = false) ->
  call_ok r' (d, ph') ->
  (forall c, In c (l1 ++ l2) -> fst c <> d ->
             call_ok (request s) c -> call_ok r' c) ->
  run_ok r0 (mkRun r' (l1 ++ (d, ph') :: l2)).
Proof.
  intros Hcalls (Hn & Hf & H0 & Hle & Hst & Hnd & Hall) Hn' Hf' Hle' Hst'
         Hnew Hothers.
  unfold run_ok, outcomes in *. simpl. rewrite Hcalls in *.
  rewrite outcomes_middle in *.
  rewrite map_app in *. simpl in *.
  apply Forall_app in Hall. destruct Hall as [Hall1 Hall2].
  inversion Hall2 as [|? ? Hold Hall2']; subst.
  repeat split; try assumption; try lia.
  apply Forall_app. split; [|constructor; [exact Hnew|]].
  - rewrite Forall_forall in *. intros c Hc. apply Hothers; auto.
    + apply in_or_app. now left.
    + intros Heq. apply NoDup_remove_2 in Hnd. apply Hnd.
      apply in_or_app. left. rewrite <- Heq. now apply in_map.
  - rewrite Forall_forall in *. intros c Hc. apply Hothers; auto.
    + apply in_or_app. now right.
    + intros Heq. apply NoDup_remove_2 in Hnd. apply Hnd.
      apply in_or_app. right. rewrite <- Heq. now apply in_map.
Qed.

Lemma advance_ok (r0 : BloodRequest) (s : Run) (i : nat) :
  run_ok r0 s -> run_ok r0 (advance s i).
Proof.
  intros Hs. unfold advance.
  destruct (nth_error (calls s) i) as [[d ph]|] eqn:Hnth; [|exact Hs].
  destruct (nth_error_split _ _ Hnth) as (l1 & l2 & Hcalls & Hlen).
  pose proof Hs as (Hn & Hf & H0 & Hle & Hst & Hnd & Hall).
  assert (Hmine : call_ok (request s) (d, ph)).
  { rewrite Forall_forall in Hall. apply Hall. rewrite Hcalls.
    apply in_or_app. right. now left. }
  destruct ph as [|m|res]; [| |exact Hs].
  - (* steps 1 and 2 *)
    destruct Hmine as [m [Hloc Hprop]]. simpl in Hloc.
    unfold check. rewrite Hloc, Hprop.
    destruct (terminal (status (request s))) eqn:Hterm;
      rewrite Hcalls, <- Hlen, replace_middle;
      apply (advance_frame r0 s (request s) l1 l2 d Waiting);
      try assumption; try (unfold successes, outcome; simpl; lia);
      try (intros c _ _ Hc; exact Hc).
    + destruct (Z.eqb_spec (units_fulfilled (request s)) (units_needed r0));
        [exact Hst | discriminate Hst].
    + unfold call_ok; simpl. split; [now left|].
      destruct (Z.eqb_spec (units_fulfilled (request s)) (units_needed r0));
        [congruence | discriminate Hst].
    + destruct (Z.eqb_spec (units_fulfilled (request s)) (units_needed r0));
        [exact Hst | exact Hterm].
    + unfold call_ok; simpl. now exists m.
  - (* steps 3 and 4 *)
    unfold commit.
    destruct (Z.ltb_spec (units_fulfilled (request s))
                         (units_needed (request s))) as [Hlt|Hge];
      rewrite Hcalls, <- Hlen, replace_middle.
    + apply (advance_frame r0 s _ l1 l2 d (Checked m));
        try assumption; try (unfold successes, outcome; simpl; lia).
      * simpl. rewrite Hn.
        destruct (Z.eqb_spec (units_fulfilled (request s) + 1)
                             (units_needed r0)); [reflexivity|].
        destruct (Z.eqb_spec (units_fulfilled (request s))
                             (units_needed r0)); [lia | exact Hst].
      * exact I.
      * intros [d' ph'] _ Hne. unfold call_ok; simpl in *.
        destruct ph' as [| m' |[m'|e]]; auto.
        -- intros [m' [Hloc' Hp']]. exists m'. split; [|exact Hp'].
           unfold matched_donors at 1.
           now rewrite locate_mark_accepted_other.
        -- intros [m'' [Hloc' Hp']]. exists m''. split; [|exact Hp'].
           unfold matched_donors at 1.
           now rewrite locate_mark_accepted_other.
        -- intros [_ Hsat]. lia.
    + apply (advance_frame r0 s (request s) l1 l2 d (Checked m));
        try assumption; try (unfold successes, outcome; simpl; lia);
        try (intros c _ _ Hc; exact Hc).
      unfold call_ok; simpl. split; [now right | lia].
Qed.

Lemma interleave_ok (r0 : BloodRequest) (schedule : list nat) (s : Run) :
  run_ok r0 s ->
  Forall (run_ok r0) (interleave s schedule) /\
  run_ok r0 (last (interleave s schedule) s).
Proof.
  revert s. induction schedule as [|i rest IH]; intros s Hs; simpl.
  - split; [constructor | exact Hs].
  - pose proof (advance_ok r0 s i Hs) as Hs'.
    destruct (IH _ Hs') as [Hall Hlast]. split; [now constructor|].
    fold (interleave (advance s i) rest).
    change (run_ok r0 (last (advance s i :: interleave (advance s i) rest)
                            s)).
    now rewrite last_cons.
Qed.

(** When every call is done, the successes are the smaller of the number
    of calls and the units that were still needed. *)
Lemma run_ok_done (r0 : BloodRequest) (s : Run) :
  run_ok r0 s -> all_done s ->
  length (outcomes s) = length (calls s) /\
  Z.of_nat (successes (outcomes s)) =
    Z.min (Z.of_nat (length (calls s)))
          (units_needed r0 - units_fulfilled r0) /\
  Forall (fun res => is_ok res = true \/ res = Err RequestTerminal \/
                     res = Err RequestAlreadySatisfied) (outcomes s).
Proof.
  intros (Hn & Hf & H0 & Hle & Hst & Hnd & Hall) Hdone.
  unfold outcomes, all_done in *.
  assert (Hshape :
            length (flat_map outcome (calls s)) = length (calls s) /\
            Forall (fun res => is_ok res = true \/ res = Err RequestTerminal
                               \/ res = Err RequestAlreadySatisfied)
                   (flat_map outcome (calls s)) /\
            (successes (flat_map outcome (calls s)) <= length (calls s))%nat
            /\
            ((successes (flat_map outcome (calls s)) < length (calls s))%nat
             -> units_fulfilled (request s) = units_needed (request s))).
  { clear Hf Hnd. induction (calls s) as [|[d ph] l IH]; simpl.
    - unfold successes; simpl. repeat split; try constructor; lia.
    - inversion Hall as [|? ? Hc Hall']; subst.
      inversion Hdone as [|? ? Hd Hdone']; subst.
      destruct (IH Hall' Hdone') as (IH1 & IH2 & IH3 & IH4).
      destruct ph as [| m |[m|e]]; try discriminate Hd;
        [change (outcome (d, Done (Ok m))) with [Ok m]
        |change (outcome (d, Done (@Err DonorMatch e))) with [@Err DonorMatch e]];
        unfold successes in *; simpl; rewrite ?IH1.
      + split; [reflexivity|]. split; [constructor; [now left | exact IH2]|].
        split; [lia|]. intros Hlt. apply IH4. lia.
      + destruct Hc as [He Hsat]. simpl in *.
        split; [reflexivity|].
        split; [constructor; [right; destruct He; subst; auto | exact IH2]|].
        split; [lia|]. intros _. exact Hsat. }
  destruct Hshape as (H1 & H2 & H3 & H4).
  repeat split; [exact H1 | | exact H2].
  destruct (Nat.eq_dec (successes (flat_map outcome (calls s)))
                       (length (calls s))) as [Heq|Hne].
  - rewrite Heq in *. lia.
  - assert (Hsat : units_fulfilled (request s) = units_needed (request s))
      by (apply H4; lia).
    lia.
Qed.

Lemma nth_error_replace_same {A} (l : list A) (i : nat) (x y : A) :
  nth_error l i = Some x -> nth_error (replace i y l) i = Some y.
Proof.
  revert i. induction l as [|a l IH]; intros [|i]; simpl; try discriminate.
  - reflexivity.
  - apply IH.
Qed.

Lemma nth_error_replace_other {A} (l : list A) (i j : nat) (y : A) :
  i <> j -> nth_error (replace i y l) j = nth_error l j.
Proof.
  revert i j. induction l as [|a l IH]; intros [|i] [|j] H; simpl;
    try reflexivity; try congruence.
  apply IH. congruence.
Qed.

Lemma length_replace {A} (l : list A) (i : nat) (y : A) :
  length (replace i y l) = length l.
Proof.
  revert i. induction l as [|a l IH]; intros [|i]; simpl; auto.
Qed.

Lemma advance_self (s : Run) (i : nat) (d : string) (ph : phase) :
  nth_error (calls s) i = Some (d, ph) ->
  exists ph',
    nth_error (calls (advance s i)) i = Some (d, ph') /\
    (steps_left ph' <= pred (steps_left ph))%nat.
Proof.
  intros Hnth. unfold advance. rewrite Hnth.
  destruct ph as [|m|res].
  - destruct (check (request s) d) as [m|e]; simpl;
      eexists; (split; [eapply nth_error_replace_same; eassumption|]);
      simpl; lia.
  - destruct (commit (request s) d m) as [res r']. simpl.
    eexists. split; [eapply nth_error_replace_same; eassumption|].
    simpl. lia.
  - exists (Done res). split; [exact Hnth | simpl; lia].
Qed.

Lemma advance_other (s : Run) (i j : nat) :
  i <> j -> nth_error (calls (advance s i)) j = nth_error (calls s) j.
Proof.
  intros Hne. unfold advance.
  destruct (nth_error (calls s) i) as [[d [|m|res]]|]; try reflexivity.
  - destruct (check (request s) d); simpl;
      now apply nth_error_replace_other.
  - destruct (commit (request s) d m). simpl.
    now apply nth_error_replace_other.
Qed.

Lemma advance_length (s : Run) (i : nat) :
  length (calls (advance s i)) = length (calls s).
Proof.
  unfold advance.
  destruct (nth_error (calls s) i) as [[d [|m|res]]|]; try reflexivity.
  - destruct (check (request s) d); simpl; apply length_replace.
  - destruct (commit (request s) d m). simpl. apply length_replace.
Qed.

Lemma schedule_progress (schedule : list nat) (s : Run) (i : nat)
      (d : string) (ph : phase) :
  nth_error (calls s) i = Some (d, ph) ->
  exists ph',
    nth_error (calls (last (interleave s schedule) s)) i = Some (d, ph') /\
    (steps_left ph' <= steps_left ph - count_occ Nat.eq_dec schedule i)%nat.
Proof.
  revert s ph. induction schedule as [|j rest IH]; intros s ph Hnth.
  - exists ph. split; [exact Hnth | simpl; lia].
  - simpl interleave. rewrite last_cons. simpl count_occ.
    destruct (Nat.eq_dec j i) as [->|Hne].
    + destruct (advance_self s i d ph Hnth) as [ph1 [H1 Hle1]].
      destruct (IH _ _ H1) as [ph' [H' Hle']].
      exists ph'. split; [exact H' | lia].
    + rewrite <- (advance_other s j i Hne) in Hnth.
      destruct (IH _ _ Hnth) as [ph' [H' Hle']].
      exists ph'. split; [exact H' | lia].
Qed.

Lemma interleave_length (schedule : list nat) (s : Run) :
  length (calls (last (interleave s schedule) s)) = length (calls s).
Proof.
  revert s. induction schedule as [|j rest IH]; intros s; [reflexivity|].
  simpl interleave. rewrite last_cons, IH. apply advance_length.
Qed.

(** Every call is done once the schedule has given it two steps. *)
Lemma fair_schedule_finishes (r : BloodRequest) (donors : list string)
      (schedule : list nat) :
  (forall i, (i < length donors)%nat ->
             (2 <= count_occ Nat.eq_dec schedule i)%nat) ->
  all_done (finish r donors schedule).
Proof.
  intros Hfair. unfold all_done, finish. apply Forall_forall.
  intros c Hc. apply In_nth_error in Hc. destruct Hc as [i Hi].
  assert (Hlt : (i < length donors)%nat).
  { assert (Hsome : nth_error
                      (calls (last (interleave (start r donors) schedule)
                                   (start r donors))) i <> None)
      by congruence.
    apply nth_error_Some in Hsome. rewrite interleave_length in Hsome.
    unfold start in Hsome; simpl in Hsome.
    now rewrite length_map in Hsome. }
  destruct (nth_error (calls (start r donors)) i) as [[d ph]|] eqn:Hstart.
  - assert (Hph : ph = Waiting).
    { unfold start in Hstart; simpl in Hstart.
      rewrite nth_error_map in Hstart.
      destruct (nth_error donors i); simpl in Hstart; congruence. }
    subst ph.
    destruct (schedule_progress schedule _ i d Waiting Hstart)
      as [ph' [H' Hle]].
    rewrite Hi in H'. injection H' as ->.
    specialize (Hfair i Hlt).
    unfold is_done. destruct ph'; cbn [steps_left snd] in *;
      [lia | lia | reflexivity].
  - exfalso. apply nth_error_None in Hstart.
    unfold start in Hstart; simpl in Hstart.
    rewrite length_map in Hstart. lia.
Qed.

(** ** C1 *)

(** Claim C1 as stated fails on the coordinator as designed.  With one
    unit needed and two proposed donors accepting one after the other,
    the second call finds the request already fulfilled and fails with
    RequestTerminal, not RequestAlreadySatisfied -- whether whole calls
    exclude each other or only their updates do; and with two units needed
    and a single accept, one call succeeds, not [units_needed] of them. *)
Lemma late_accept_is_RequestTerminal :
  let ann := mkDonorMatch "ann" "Ann" "O-" 1%Q 90%Q proposed true in
  let bob := mkDonorMatch "bob" "Bob" "O-" 5%Q 80%Q proposed true in
  let origin := mkCoordinate 0%Q 0%Q in
  let one := mkBloodRequest "r1" "hosp" "O-" 1 0 emergency matching
                            [ann; bob] origin in
  let two := mkBloodRequest "r2" "hosp" "O-" 2 0 emergency matching
                            [ann; bob] origin in
  fst (acceptAll one ["ann"; "bob"]) = [Ok (accept ann); Err RequestTerminal]
  /\ outcomes (finish one ["ann"; "bob"] [0; 0; 1; 1]%nat)
     = [Ok (accept ann); Err RequestTerminal]
  /\ Err RequestTerminal <> @Err DonorMatch RequestAlreadySatisfied
  /\ units_fulfilled (final one (snd (acceptAll one ["ann"; "bob"]))) = 1%Z
  /\ successes (fst (acceptAll two ["ann"])) = 1%nat
  /\ successes (outcomes (finish two ["ann"] [0; 0]%nat)) = 1%nat
  /\ units_needed two = 2%Z.
Proof. repeat split. discriminate. Qed.

(** Claim C1, amended. [0 <= units_fulfilled <= units_needed] holds after
    every operation on a request, in any order.  When N distinct proposed
    donors accept an open request concurrently, under any schedule of
    their reads and atomic updates, the counter stays in range throughout,
    every call finishes once it has been given its two steps, and when all
    are done the final [units_fulfilled] is the smaller of
    [units_fulfilled + N] and [units_needed] -- min(N, units_needed) from
    a fresh request --, exactly min(N, units still needed) calls succeed,
    and each remaining call fails with RequestTerminal or
    RequestAlreadySatisfied.  When whole calls exclude each other, the
    calls that succeed are the first ones and each remaining call fails
    with RequestTerminal. *)
Theorem units_fulfilled_never_exceeds_need
        (r : BloodRequest) (ops : list operation) (donors : list string)
        (schedule : list nat) :
  counter_ok r ->
  Forall counter_ok (history r ops) /\
  (open r -> NoDup donors -> Forall (proposed_to r) donors ->
   let N := Z.of_nat (length donors) in
   let room := (units_needed r - units_fulfilled r)%Z in
   let done := finish r donors schedule in
   let results := fst (acceptAll r donors) in
   let states := snd (acceptAll r donors) in
   Forall (fun s => counter_ok (request s))
          (interleave (start r donors) schedule) /\
   ((forall i, (i < length donors)%nat ->
               (2 <= count_occ Nat.eq_dec schedule i)%nat) ->
    all_done done) /\
   (all_done done ->
    units_fulfilled (request done) =
      Z.min (units_fulfilled r + N) (units_needed r) /\
    (units_fulfilled r = 0%Z ->
     units_fulfilled (request done) = Z.min N (units_needed r)) /\
    Z.of_nat (successes (outcomes done)) = Z.min N room /\
    length (outcomes done) = length donors /\
    Forall (fun res => is_ok res = true \/ res = Err RequestTerminal \/
                       res = Err RequestAlreadySatisfied)
           (outcomes done)) /\
   Forall counter_ok states /\
   units_fulfilled (final r states) =
     Z.min (units_fulfilled r + N) (units_needed r) /\
   Z.of_nat (successes results) = Z.min N room /\
   length results = length donors /\
   (forall i res,
       nth_error results i = Some res ->
       ((Z.of_nat i < Z.min N room)%Z -> is_ok res = true) /\
       ((Z.min N room <= Z.of_nat i)%Z -> res = Err RequestTerminal))).
Proof.
  intros Hr. split; [now apply history_counter|].
  intros Hopen Hnd Hall N room done results states.
  pose proof (start_ok r donors Hopen Hnd Hall) as Hstart.
  destruct (interleave_ok r schedule _ Hstart) as [Hruns Hdone].
  fold (finish r donors schedule) in Hdone. fold done in Hdone.
  assert (Hcalls : length (calls done) = length donors).
  { unfold done, finish. rewrite interleave_length.
    unfold start; simpl. apply length_map. }
  split; [|split; [|split]].
  - revert Hruns. apply Forall_impl.
    intros s (Hn & Hf & H0 & Hle & _). unfold counter_ok. lia.
  - apply fair_schedule_finishes.
  - intros Hfin.
    destruct (run_ok_done r done Hdone Hfin) as (Hlen & Hcount & Hres).
    destruct Hdone as (Hn & Hf & H0 & Hle & _).
    rewrite Hcalls in Hlen, Hcount. fold N room in Hcount.
    destruct Hopen as [_ Hroom].
    repeat split; try assumption; unfold N, room in *; lia.
  - destruct (acceptAll_open donors r Hopen Hnd Hall)
      as [[oks [Hoks [Hlen Hok]]] [Hf [Hn Hs]]].
    fold results in Hoks. fold states in Hf, Hn, Hs.
    destruct Hopen as [_ Hroom].
    assert (Hk : Z.of_nat (length oks) = Z.min N room).
    { rewrite Hlen. unfold N, room. lia. }
    split; [|split; [|split; [|split]]].
    + unfold states. rewrite acceptAll_history. now apply history_counter.
    + rewrite Hf. unfold N. lia.
    + rewrite Hoks, successes_shape by exact Hok. exact Hk.
    + rewrite Hoks, length_app, repeat_length, Hlen. lia.
    + intros i res Hnth. rewrite Hoks in Hnth.
      destruct (results_shape oks _ i res Hok Hnth) as [H1 H2].
      split; intros Hi; [apply H1 | apply H2]; lia.
Qed.

(** Two units, three donors: the calls interleave so that "cyd" passes
    the checks before the request is fulfilled and is refused at the
    update. *)
Lemma units_fulfilled_never_exceeds_need_witness :
  let ann := mkDonorMatch "ann" "Ann" "O-" 1%Q 90%Q proposed true in
  let bob := mkDonorMatch "bob" "Bob" "O-" 5%Q 80%Q proposed true in
  let cyd := mkDonorMatch "cyd" "Cyd" "O-" 50%Q 40%Q proposed true in
  let r := mkBloodRequest "r1" "hosp" "O-" 2 0 emergency matching
                          [ann; bob; cyd] (mkCoordinate 0%Q 0%Q) in
  let donors := ["bob"; "ann"; "cyd"] in
  let schedule := [0; 2; 1; 1; 0; 2]%nat in
  let done := finish r donors schedule in
  (counter_ok r /\ open r /\ NoDup donors /\ Forall (proposed_to r) donors /\
   all_done done) /\
  outcomes done =
    [Ok (accept bob); Ok (accept ann); Err RequestAlreadySatisfied] /\
  Forall (fun s => counter_ok (request s))
         (interleave (start r donors) schedule) /\
  units_fulfilled (request done) = 2%Z /\
  Z.of_nat (successes (outcomes done)) = 2%Z /\
  fst (acceptAll r donors) =
    [Ok (accept bob); Ok (accept ann); Err RequestTerminal].
Proof.
  intros ann bob cyd r donors schedule done.
  assert (Hc : counter_ok r) by (unfold counter_ok; simpl; lia).
  assert (Ho : open r) by (unfold open; simpl; split; [reflexivity | lia]).
  assert (Hn : NoDup donors).
  { unfold donors. repeat constructor; simpl; intuition discriminate. }
  assert (Hp : Forall (proposed_to r) donors).
  { unfold donors, proposed_to.
    repeat constructor; eexists; (split; [reflexivity | reflexivity]). }
  assert (Hd : all_done done) by (repeat constructor).
  destruct (units_fulfilled_never_exceeds_need
              r [CancelRequest; AcceptMatch "ann"] donors schedule Hc)
    as [_ H].
  destruct (H Ho Hn Hp) as (Hrange & _ & Hfin & _).
  destruct (Hfin Hd) as (Hfinal & _ & Hcount & _).
  exact (conj (conj Hc (conj Ho (conj Hn (conj Hp Hd))))
              (conj eq_refl (conj Hrange (conj Hfinal
                 (conj Hcount eq_refl))))).
Defined.

(** ** C7 *)

Section Selection.

Variable distance : Coordinate -> Coordinate -> Q.
Variable score : BloodRequest -> Donor -> Q -> Q.
Variable in_cooldown : Donor -> bool.
Variable radius_km : Q.
Variable top_n : nat.

Lemma In_insert (x m : DonorMatch) (l : list DonorMatch) :
  In x (insert m l) <-> x = m \/ In x l.
Proof.
  induction l as [|y l IH]; simpl.
  - intuition.
  - destruct (precedes m y); simpl; rewrite ?IH; intuition.
Qed.

Lemma In_rank (x : DonorMatch) (l : list DonorMatch) :
  In x (rank l) <-> In x l.
Proof.
  induction l as [|y l IH]; simpl; [tauto|].
  rewrite In_insert, IH. intuition.
Qed.

Lemma In_firstn {A} (n : nat) (x : A) (l : list A) :
  In x (firstn n l) -> In x l.
Proof.
  intros H. rewrite <- (firstn_skipn n l). apply in_or_app. now left.
Qed.

(** Every selected match is the proposal made to one of the candidates
    that pass all the filters. *)
Lemma selectMatches_origin (request : BloodRequest)
      (candidateDonors : list Donor) (m : DonorMatch) :
  In m (selectMatches distance score in_cooldown radius_km top_n
                      request candidateDonors) ->
  exists d,
    In d candidateDonors /\
    m = propose distance score request d /\
    donor_is_available d = true /\
    in_cooldown d = false /\
    BloodTypes.canDonateTo (donor_blood_type d) (blood_type request)
      = true /\
    Qle_bool (distance_km m) radius_km = true.
Proof.
  unfold selectMatches. intros H.
  apply In_firstn, In_rank, filter_In in H. destruct H as [H Hnear].
  apply in_map_iff in H. destruct H as [d [Hm H]].
  apply filter_In in H. destruct H as [H Hcompat].
  apply filter_In in H. destruct H as [H Hrest].
  apply filter_In in H. destruct H as [H Havail].
  exists d. repeat split; auto.
  now apply negb_true_iff.
Qed.

(** Claim C7. Whatever the request and the candidate donors, every
    match that [selectMatches] returns has [is_available] true (and is
    the snapshot of a candidate whose availability flag is true). *)
Theorem selectMatches_only_available (request : BloodRequest)
        (candidateDonors : list Donor) (m : DonorMatch) :
  In m (selectMatches distance score in_cooldown radius_km top_n
                      request candidateDonors) ->
  is_available m = true /\
  exists d, In d candidateDonors /\
            donor_identity d = donor_id m /\
            donor_is_available d = true.
Proof.
  intros H. apply selectMatches_origin in H.
  destruct H as [d [Hin [-> [Havail _]]]]. simpl.
  split; [exact Havail|]. exists d. auto.
Qed.

End Selection.

Lemma selectMatches_only_available_witness :
  let m := propose Samples.line_distance Samples.sample_score
                   Samples.two_units Samples.bob in
  is_available m = true /\
  exists d, In d [Samples.cyd; Samples.dan; Samples.eve; Samples.bob;
                  Samples.ann] /\
            donor_identity d = donor_id m /\
            donor_is_available d = true.
Proof.
  apply (selectMatches_only_available
           Samples.line_distance Samples.sample_score (fun _ => false)
           100%Q 10 Samples.two_units
           [Samples.cyd; Samples.dan; Samples.eve; Samples.bob;
            Samples.ann]).
  vm_compute. right. left. reflexivity.
Defined.

(** The sample request: the unavailable and the incompatible donor are
    left out and the nearest donor comes first; two accepts fulfil it
    and the third donor is then told the request is terminal. *)
Example sample_selection :
  map donor_id (matched_donors Samples.two_units) = ["ann"; "bob"; "cyd"] /\
  status Samples.two_units = matching /\
  fst (acceptAll Samples.two_units ["bob"; "ann"; "cyd"]) =
    [Ok (accept (propose Samples.line_distance Samples.sample_score
                         Samples.two_units Samples.bob));
     Ok (accept (propose Samples.line_distance Samples.sample_score
                         Samples.two_units Samples.ann));
     Err RequestTerminal] /\
  status Samples.two_units_fulfilled = fulfilled /\
  units_fulfilled Samples.two_units_fulfilled = 2%Z.
Proof. vm_compute. repeat split. Qed.

End CoreFacts.

Module TerminalFacts.
Import RequestViews.

Lemma RequestCard_fulfilled (showAccept : option bool)
      (request : Api.BloodRequest) :
  Api.status request = "fulfilled" ->
  RequestCard_offers_accept showAccept request = false.
Proof.
  intros H. unfold RequestCard_offers_accept. rewrite H.
  destruct showAccept as [[|]|]; reflexivity.
Qed.

Lemma RequestDetailScreen_fulfilled (user : option AuthStore.User)
      (request : Api.BloodRequest) :
  Api.status request = "fulfilled" ->
  RequestDetailScreen_offers_accept user request = false.
Proof.
  intros H. unfold RequestDetailScreen_offers_accept. rewrite H.
  apply andb_false_r.
Qed.

(** ** C6 *)

(** Claim C6 as stated fails.  On a cancelled request both the request
    card and the detail screen offer "Accept & Donate" to a matched
    donor; and on a fulfilled request the coordinator answers a donor
    who was never proposed with MatchNotFound and a donor who already
    accepted with AlreadyDecided, not with RequestTerminal. *)
Lemma accept_offered_on_cancelled_request :
  Api.status Samples.cancelled_view = "cancelled" /\
  RequestCard_offers_accept (Some true) Samples.cancelled_view = true /\
  list_offers_accept (Some Samples.donor_ann) Samples.cancelled_view
    = true /\
  RequestDetailScreen_offers_accept (Some Samples.donor_ann)
                                    Samples.cancelled_view = true /\
  Core.status Samples.two_units_fulfilled = Core.fulfilled /\
  fst (Core.acceptMatch Samples.two_units_fulfilled "zed")
    = Core.Err Core.MatchNotFound /\
  fst (Core.acceptMatch Samples.two_units_fulfilled "ann")
    = Core.Err Core.AlreadyDecided.
Proof. vm_compute. repeat split. Qed.

(** Claim C6, amended. Once a request is fulfilled or cancelled no
    accept goes through: [acceptMatch] fails for every donor and leaves
    the request as it is -- with RequestTerminal for a donor whose match
    is still proposed, MatchNotFound for a donor who was never proposed,
    AlreadyDecided for one whose match is already accepted or declined --
    and neither the request card nor the detail screen offers the Accept
    action for a request whose status is "fulfilled". *)
Theorem no_accept_once_terminal
        (r : Core.BloodRequest) (donor : string)
        (showAccept : option bool) (user : option AuthStore.User)
        (view : Api.BloodRequest) :
  Core.terminal (Core.status r) = true ->
  (snd (Core.acceptMatch r donor) = r /\
   Core.is_ok (fst (Core.acceptMatch r donor)) = false /\
   (Core.proposed_to r donor ->
    fst (Core.acceptMatch r donor) = Core.Err Core.RequestTerminal) /\
   (Core.locate donor (Core.matched_donors r) = None ->
    fst (Core.acceptMatch r donor) = Core.Err Core.MatchNotFound) /\
   (forall m, Core.locate donor (Core.matched_donors r) = Some m ->
              Core.match_status m <> Core.proposed ->
              fst (Core.acceptMatch r donor)
                = Core.Err Core.AlreadyDecided)) /\
  (Api.status view = "fulfilled" ->
   RequestCard_offers_accept showAccept view = false /\
   list_offers_accept user view = false /\
   RequestDetailScreen_offers_accept user view = false).
Proof.
  intros Hterm. split.
  - destruct (CoreFacts.acceptMatch_terminal r donor Hterm)
      as [H1 [H2 [H3 [H4 H5]]]].
    repeat split; assumption.
  - intros Hview. repeat split.
    + now apply RequestCard_fulfilled.
    + now apply RequestCard_fulfilled.
    + now apply RequestDetailScreen_fulfilled.
Qed.

Lemma no_accept_once_terminal_witness :
  let r := Samples.two_units_cancelled in
  let donor := "bob" in
  Core.terminal (Core.status r) = true /\
  Core.proposed_to r donor /\
  snd (Core.acceptMatch r donor) = r /\
  fst (Core.acceptMatch r donor) = Core.Err Core.RequestTerminal.
Proof.
  intros r donor.
  assert (Hterm : Core.terminal (Core.status r) = true) by reflexivity.
  assert (Hprop : Core.proposed_to r donor).
  { eexists. split; reflexivity. }
  destruct (no_accept_once_terminal r donor (Some true)
              (Some Samples.donor_ann) Samples.cancelled_view Hterm)
    as [[Hsame [_ [Hres _]]] _].
  exact (conj Hterm (conj Hprop (conj Hsame (Hres Hprop)))).
Defined.

End TerminalFacts.

(** * Further properties of the client code *)

Module CompatibilityFacts.
Import BloodTypes.

Lemma table_rows_are_types : map fst BLOOD_COMPATIBILITY = BLOOD_TYPES.
Proof. reflexivity. Qed.

Lemma keys_filter {A} (P : A -> bool) (l : list (string * A)) :
  NoDup (map fst l) ->
  map fst (filter (fun e => P (snd e)) l) =
  filter (fun k => match JS.get l k with
                   | Some v => P v
                   | None => false
                   end) (map fst l).
Proof.
  induction l as [|[k v] l IH]; simpl; intros Hnd; [reflexivity|].
  inversion Hnd as [|? ? Hnotin Hnd']; subst.
  rewrite String.eqb_refl.
  assert (Htail :
            filter (fun k' => match (if String.eqb k k' then Some v
                                     else JS.get l k') with
                              | Some v' => P v'
                              | None => false
                              end) (map fst l) =
            filter (fun k' => match JS.get l k' with
                              | Some v' => P v'
                              | None => false
                              end) (map fst l)).
  { apply filter_ext_in. intros k' Hk'.
    destruct (String.eqb_spec k k') as [->|_]; [contradiction | reflexivity]. }
  rewrite Htail, <- (IH Hnd').
  destruct (P v); reflexivity.
Qed.

(** The result of the reverse lookup, for any string, in terms of the
    forward relation. *)
Lemma getCompatibleDonorTypes_as_filter (r : string) :
  getCompatibleDonorTypes r = filter (fun d => canDonateTo d r) BLOOD_TYPES.
Proof.
  rewrite BloodTypesFacts.getCompatibleDonorTypes_filter.
  rewrite (keys_filter (JS.includes r) BLOOD_COMPATIBILITY
             BloodTypesFacts.table_keys_distinct).
  rewrite table_rows_are_types. reflexivity.
Qed.

(** Only the eight types donate or receive. *)
Lemma canDonateTo_known (d r : string) :
  canDonateTo d r = true -> In d BLOOD_TYPES /\ In r BLOOD_TYPES.
Proof.
  unfold canDonateTo. intros H.
  destruct (JS.get BLOOD_COMPATIBILITY d) as [rs|] eqn:Hget;
    [|discriminate].
  assert (Hrow : In (d, rs) BLOOD_COMPATIBILITY).
  { clear H. revert Hget. generalize BLOOD_COMPATIBILITY.
    induction l as [|[k v] l IH]; simpl; [discriminate|].
    destruct (String.eqb_spec k d) as [->|_].
    - intros Heq. injection Heq as ->. now left.
    - intros Hl. right. now apply IH. }
  split.
  - rewrite <- table_rows_are_types.
    change d with (fst (d, rs)). now apply in_map.
  - pose proof BloodTypesFacts.recipients_known as Hk.
    rewrite Forall_forall in Hk. apply (Hk _ Hrow).
    now apply JSFacts.includes_In.
Qed.

(** bloodTypes.ts, the table: donation is a partial order on the eight
    types: every type donates to itself, two types that donate to each
    other are the same, and donation carries over a third type. *)
Theorem canDonateTo_partial_order (a b c : string) :
  In a BLOOD_TYPES -> In b BLOOD_TYPES -> In c BLOOD_TYPES ->
  canDonateTo a a = true /\
  (canDonateTo a b = true -> canDonateTo b a = true -> a = b) /\
  (canDonateTo a b = true -> canDonateTo b c = true ->
   canDonateTo a c = true).
Proof.
  intros Ha Hb Hc.
  rewrite !BloodTypesFacts.table_matches_rule by assumption.
  assert (Hname : forall x y, In x BLOOD_TYPES -> In y BLOOD_TYPES ->
                    antigen_A x = antigen_A y ->
                    antigen_B x = antigen_B y ->
                    rh_positive x = rh_positive y -> x = y).
  { intros x y Hx Hy.
    apply BloodTypesFacts.In_BLOOD_TYPES in Hx.
    apply BloodTypesFacts.In_BLOOD_TYPES in Hy.
    repeat (destruct Hx as [Hx | Hx]); repeat (destruct Hy as [Hy | Hy]);
      subst; vm_compute; intros; congruence. }
  unfold abo_rh_rule. split; [|split].
  - destruct (antigen_A a), (antigen_B a), (rh_positive a); reflexivity.
  - intros H1 H2. apply Hname; try assumption;
      destruct (antigen_A a), (antigen_A b), (antigen_B a), (antigen_B b),
        (rh_positive a), (rh_positive b); simpl in *; congruence.
  - destruct (antigen_A a), (antigen_A b), (antigen_A c), (antigen_B a),
      (antigen_B b), (antigen_B c), (rh_positive a), (rh_positive b),
      (rh_positive c); simpl; congruence.
Qed.

Lemma canDonateTo_partial_order_witness :
  canDonateTo "O+" "O+" = true /\
  (canDonateTo "O+" "A+" = true -> canDonateTo "A+" "O+" = true ->
   "O+" = "A+") /\
  (canDonateTo "O+" "A+" = true -> canDonateTo "A+" "AB+" = true ->
   canDonateTo "O+" "AB+" = true).
Proof.
  apply (canDonateTo_partial_order "O+" "A+" "AB+");
    unfold BLOOD_TYPES; simpl; tauto.
Defined.

(** One of the eight types always has donor types: O- and itself. *)
Lemma known_type_donors (r : string) :
  In r BLOOD_TYPES ->
  In "O-" (getCompatibleDonorTypes r) /\ In r (getCompatibleDonorTypes r).
Proof.
  intros Hr. rewrite getCompatibleDonorTypes_as_filter.
  apply BloodTypesFacts.In_BLOOD_TYPES in Hr.
  repeat (destruct Hr as [Hr | Hr]); subst; vm_compute; tauto.
Qed.

(** bloodTypes.ts, [getCompatibleDonorTypes]: for every string the result
    lists, without repetition and in the order of [BLOOD_TYPES], the
    types whose row has the recipient; it is empty exactly when the
    string is none of the eight types, and for one of them it has O- and
    the type itself. *)
Theorem getCompatibleDonorTypes_shape (r : string) :
  getCompatibleDonorTypes r = filter (fun d => canDonateTo d r) BLOOD_TYPES /\
  NoDup (getCompatibleDonorTypes r) /\
  incl (getCompatibleDonorTypes r) BLOOD_TYPES /\
  (getCompatibleDonorTypes r = [] <-> ~ In r BLOOD_TYPES) /\
  (In r BLOOD_TYPES ->
   In "O-" (getCompatibleDonorTypes r) /\ In r (getCompatibleDonorTypes r)).
Proof.
  assert (Hnd : NoDup BLOOD_TYPES).
  { rewrite <- table_rows_are_types.
    apply BloodTypesFacts.table_keys_distinct. }
  pose proof (known_type_donors r) as Hknown.
  split; [apply getCompatibleDonorTypes_as_filter|].
  rewrite getCompatibleDonorTypes_as_filter at 1 2.
  split; [now apply NoDup_filter|].
  split; [apply incl_filter|].
  split; [|exact Hknown].
  split.
  - intros Hnil Hr. destruct (Hknown Hr) as [Ho _].
    rewrite Hnil in Ho. contradiction.
  - intros Hr. rewrite getCompatibleDonorTypes_as_filter.
    assert (Hnone : forall l, filter (fun d => canDonateTo d r) l = []).
    { induction l as [|d l IH]; simpl; [reflexivity|].
      destruct (canDonateTo d r) eqn:E; [|exact IH].
      exfalso. apply Hr. exact (proj2 (canDonateTo_known d r E)). }
    apply Hnone.
Qed.

Lemma getCompatibleDonorTypes_shape_witness :
  (getCompatibleDonorTypes "B+" = ["O-"; "O+"; "B-"; "B+"] /\
   In "B+" BLOOD_TYPES /\ ~ In "b+" BLOOD_TYPES) /\
  In "O-" (getCompatibleDonorTypes "B+") /\
  In "B+" (getCompatibleDonorTypes "B+") /\
  getCompatibleDonorTypes "b+" = [].
Proof.
  assert (Hin : In "B+" BLOOD_TYPES) by (unfold BLOOD_TYPES; simpl; tauto).
  assert (Hout : ~ In "b+" BLOOD_TYPES)
    by (unfold BLOOD_TYPES; simpl; intuition discriminate).
  destruct (getCompatibleDonorTypes_shape "B+") as (_ & _ & _ & _ & Hk).
  destruct (getCompatibleDonorTypes_shape "b+") as (_ & _ & _ & He & _).
  destruct (Hk Hin) as [H1 H2].
  exact (conj (conj eq_refl (conj Hin Hout))
              (conj H1 (conj H2 (proj2 He Hout)))).
Defined.

End CompatibilityFacts.

Module DisplayFacts.
Import Display.

(** bloodTypes.ts [URGENCY_LEVELS] and the two [getUrgencyColor]: the
    card and the detail screen colour every urgency alike, with the colour
    the urgency selector gives the level; any other urgency text is
    coloured as "normal". *)
Theorem urgency_colours_agree (urgency : string) (level : UrgencyLevel) :
  In level URGENCY_LEVELS ->
  RequestCard_getUrgencyColor urgency =
    RequestDetailScreen_getUrgencyColor urgency /\
  RequestCard_getUrgencyColor (value level) = color level /\
  (RequestCard_getUrgencyColor urgency = color level <->
   urgency = value level \/
   (value level = "normal" /\ ~ In urgency (map value URGENCY_LEVELS))) /\
  map value URGENCY_LEVELS = CreateRequest.URGENCY_VALUES.
Proof.
  intros Hin. split; [reflexivity|].
  unfold URGENCY_LEVELS in *. simpl in *.
  unfold RequestCard_getUrgencyColor.
  destruct Hin as [<-|[<-|[<-|[]]]]; simpl;
    (split; [reflexivity|]); (split; [|reflexivity]);
    destruct (String.eqb_spec urgency "emergency") as [->|H1];
    try destruct (String.eqb_spec urgency "urgent") as [->|H2];
    try destruct (String.eqb_spec urgency "normal") as [->|H3];
    simpl; split; intros H; try discriminate; try tauto;
    try (destruct H as [H|[H _]]; discriminate);
    try (destruct H as [H|[_ H]]; [discriminate | exfalso; tauto]);
    try (destruct H as [H|[H _]]; congruence).
  - right. split; [reflexivity|]. intuition congruence.
Qed.

Lemma urgency_colours_agree_witness :
  RequestCard_getUrgencyColor "urgent" =
    RequestDetailScreen_getUrgencyColor "urgent" /\
  RequestCard_getUrgencyColor "urgent" = "#F59E0B" /\
  (RequestCard_getUrgencyColor "urgent" = "#F59E0B" <->
   "urgent" = "urgent" \/
   ("urgent" = "normal" /\ ~ In "urgent" (map value URGENCY_LEVELS))) /\
  map value URGENCY_LEVELS = CreateRequest.URGENCY_VALUES.
Proof.
  apply (urgency_colours_agree "urgent"
           (mkUrgencyLevel "urgent" "Urgent" "#F59E0B")).
  unfold URGENCY_LEVELS. simpl. tauto.
Defined.

End DisplayFacts.

Module AuthFlowFacts.
Import AuthStore AuthStoreMore.
Local Open Scope auth_scope.

(** *** Rules for [triple] *)

Lemma triple_weaken {A} (P P' : AuthState -> Prop) (m : M A)
      (Q Q' : A -> AuthState -> Prop) (E E' : error -> AuthState -> Prop) :
  triple P m Q E ->
  (forall st, P' st -> P st) ->
  (forall a st, Q a st -> Q' a st) ->
  (forall e st, E e st -> E' e st) ->
  triple P' m Q' E'.
Proof.
  intros H HP HQ HE w Hw. specialize (H w (HP _ Hw)).
  destruct (fst (m w)); auto.
Qed.

Lemma triple_ret {A} (P : AuthState -> Prop) (a : A)
      (E : error -> AuthState -> Prop) :
  triple P (ret a) (fun _ => P) E.
Proof. intros w Hw. exact Hw. Qed.

Lemma triple_throw {A} (P : AuthState -> Prop) (e : error)
      (Q : A -> AuthState -> Prop) :
  triple P (@throw A e) Q (fun _ => P).
Proof. intros w Hw. exact Hw. Qed.

Lemma triple_get (P : AuthState -> Prop) (E : error -> AuthState -> Prop) :
  triple P get (fun _ => P) E.
Proof. intros w Hw. exact Hw. Qed.

Lemma triple_bind {A B} (P : AuthState -> Prop) (m : M A) (k : A -> M B)
      (R : A -> AuthState -> Prop) (Q : B -> AuthState -> Prop)
      (E : error -> AuthState -> Prop) :
  triple P m R E ->
  (forall a, triple (R a) (k a) Q E) ->
  triple P (bind m k) Q E.
Proof.
  intros Hm Hk w Hw. specialize (Hm w Hw). unfold bind.
  destruct (m w) as [[a|e] w1]; simpl in *.
  - exact (Hk a w1 Hm).
  - exact Hm.
Qed.

Lemma triple_try_catch {A} (P : AuthState -> Prop) (m : M A)
      (handler : error -> M A) (R : error -> AuthState -> Prop)
      (Q : A -> AuthState -> Prop) (E : error -> AuthState -> Prop) :
  triple P m Q R ->
  (forall e, triple (R e) (handler e) Q E) ->
  triple P (try_catch m handler) Q E.
Proof.
  intros Hm Hh w Hw. specialize (Hm w Hw). unfold try_catch.
  destruct (m w) as [[a|e] w1]; simpl in *.
  - exact Hm.
  - exact (Hh e w1 Hm).
Qed.

Lemma triple_storage_call {A} (P : AuthState -> Prop)
      (f : Disk -> A * Disk) :
  triple P (storage_call f) (fun _ => P) (fun _ => P).
Proof.
  intros w Hw. unfold storage_call.
  destruct (faults w) as [|[|] rest]; simpl;
    try destruct (f (disk w)); simpl; exact Hw.
Qed.

Lemma triple_await {A} (P : AuthState -> Prop) (r : response A) :
  triple P (await r) (fun _ => P) (fun _ => P).
Proof. intros w Hw. destruct r; exact Hw. Qed.

Lemma triple_set (P : AuthState -> Prop) (p : Patch)
      (Q : unit -> AuthState -> Prop) (E : error -> AuthState -> Prop) :
  (forall st, P st -> Q tt (merge p st)) ->
  triple P (set p) Q E.
Proof. intros H w Hw. simpl. now apply H. Qed.

(** *** Invariants: the same property before, after and on a throw *)

Lemma invariant_bind {A B} (I : AuthState -> Prop) (m : M A)
      (k : A -> M B) :
  invariant I m -> (forall a, invariant I (k a)) -> invariant I (bind m k).
Proof. intros Hm Hk. exact (triple_bind I m k _ _ _ Hm Hk). Qed.

Lemma invariant_try_catch {A} (I : AuthState -> Prop) (m : M A)
      (handler : error -> M A) :
  invariant I m -> (forall e, invariant I (handler e)) ->
  invariant I (try_catch m handler).
Proof. intros Hm Hh. exact (triple_try_catch I m handler _ _ _ Hm Hh). Qed.

Lemma invariant_set (I : AuthState -> Prop) (p : Patch) :
  patch_preserves I p -> invariant I (set p).
Proof. intros H. apply triple_set. exact H. Qed.

Lemma invariant_ret {A} (I : AuthState -> Prop) (a : A) :
  invariant I (ret a).
Proof. apply triple_ret. Qed.

Lemma invariant_throw {A} (I : AuthState -> Prop) (e : error) :
  invariant I (@throw A e).
Proof. apply triple_throw. Qed.

Lemma invariant_get (I : AuthState -> Prop) : invariant I get.
Proof. apply triple_get. Qed.

Lemma invariant_storage_call {A} (I : AuthState -> Prop)
      (f : Disk -> A * Disk) :
  invariant I (storage_call f).
Proof. apply triple_storage_call. Qed.

Lemma invariant_await {A} (I : AuthState -> Prop) (r : response A) :
  invariant I (await r).
Proof. apply triple_await. Qed.


Ltac invariant_step solve_patch :=
  first
    [ apply invariant_bind; [|intros ?]
    | apply invariant_try_catch; [|intros ?]
    | apply invariant_set; solve_patch
    | apply invariant_ret
    | apply invariant_throw
    | apply invariant_get
    | apply invariant_await
    | unfold AsyncStorage_getItem, AsyncStorage_setItem,
        AsyncStorage_removeItem; apply invariant_storage_call ].

(** *** Rules for [walks] *)















(** *** [stays]: the same property of every store on the way *)











(** *** What the home screen does along a settling path *)






Section Store.

Variable JSON_stringify : User -> string.
Variable JSON_parse : string -> option (option User).
















Lemma loadUser_returns (me : response User) (w : World) :
  fst (loadUser JSON_stringify JSON_parse me w) = Val tt /\
  isLoading (store (snd (loadUser JSON_stringify JSON_parse me w))) = false.
Proof.
  assert (H : triple (fun _ => True)
                     (loadUser JSON_stringify JSON_parse me)
                     (fun _ st => isLoading st = false)
                     (fun _ _ => False)).
  { unfold loadUser.
    apply triple_try_catch with (R := fun _ _ => True);
      [|intros _; apply triple_set; reflexivity].
    apply triple_bind with (R := fun _ _ => True);
      [apply triple_storage_call | intros tok].
    apply triple_bind with (R := fun _ _ => True);
      [apply triple_storage_call | intros userStr].
    destruct (truthy tok && truthy userStr);
      [|apply triple_set; reflexivity].
    apply triple_bind with (R := fun _ _ => True).
    { destruct (JSON_parse _); [apply triple_ret | apply triple_throw]. }
    intros u.
    apply triple_bind with (R := fun _ st => isLoading st = false);
      [apply triple_set; reflexivity | intros _].
    apply triple_weaken
      with (P := fun st => isLoading st = false)
           (Q := fun _ st => isLoading st = false)
           (E := fun _ st => isLoading st = false); auto.
    change (invariant (fun st => isLoading st = false)
              (try_catch
                 (data <- await me ;;
                  set (mkPatch (Some (Some data)) None None None) ;;;
                  AsyncStorage_setItem UserKey (JSON_stringify data))
                 (fun _ =>
                    set (mkPatch (Some None) (Some None) None (Some false)) ;;;
                    AsyncStorage_removeItem TokenKey ;;;
                    AsyncStorage_removeItem UserKey))).
    repeat invariant_step ltac:(intros st Hst; exact Hst). }
  specialize (H w I).
  destruct (fst (loadUser JSON_stringify JSON_parse me w)) as [[]|e];
    [split; [reflexivity | exact H] | contradiction].
Qed.

(** authStore.ts [loadUser]: it never throws and always ends the loading
    state, whatever is stored, whatever the server answers and whichever
    storage calls reject. *)
Theorem loadUser_settles (me : response User) (w : World) :
  fst (loadUser JSON_stringify JSON_parse me w) = Val tt /\
  isLoading (store (snd (loadUser JSON_stringify JSON_parse me w))) = false.
Proof. apply loadUser_returns. Qed.




Ltac run_storage w :=
  destruct w as [st d fl lg];
  try (destruct fl as [|[|] [|[|] [|[|] fl]]]);
  simpl.

(** authStore.ts [login] and [register]: all or nothing.  When the call
    returns, the server resolved the request and the store holds its
    user and token and is authenticated, with [isLoading] as before, and
    both are in storage; when it throws, the store is untouched and the
    error carries the server's detail if there is one, else "Login
    failed" or "Registration failed". *)
Theorem login_register_all_or_nothing
        (email password : string) (data : RegisterData)
        (resp : response AuthResponse) (w : World) :
  let entered st d body :=
    st = mkAuthState (Some (resp_user body)) (Some (access_token body))
                     (isLoading (store w)) true /\
    d = mkDisk (Some (access_token body))
               (Some (JSON_stringify (resp_user body))) in
  let outcome r fallback :=
    match fst r with
    | Val _ =>
        exists body, resp = Resolved body /\
                     entered (store (snd r)) (disk (snd r)) body
    | Exn e =>
        store (snd r) = store w /\ log (snd r) = log w /\
        e = Error (failure_message resp fallback)
    end in
  outcome (login JSON_stringify email password resp w) "Login failed" /\
  outcome (register JSON_stringify data resp w) "Registration failed".
Proof.
  intros entered outcome. unfold outcome, entered, login, register.
  split; destruct resp as [body|[[|c detail]|]];
    run_storage w; eauto.
Qed.

(** authStore.ts [logout]: when it returns, the store has no user and no
    token and is not authenticated and both keys are gone from storage;
    when a storage call rejects, it throws and the store is untouched. *)
Theorem logout_all_or_nothing (w : World) :
  match fst (logout w) with
  | Val _ =>
      store (snd (logout w)) =
        mkAuthState None None (isLoading (store w)) false /\
      disk (snd (logout w)) = mkDisk None None
  | Exn e =>
      e = StorageError /\
      store (snd (logout w)) = store w /\ log (snd (logout w)) = log w
  end.
Proof. unfold logout. run_storage w; auto. Qed.

(** authStore.ts [updateDonorProfile] and [refreshUser]: they change the
    user at most -- token, authentication and loading state stay; a
    failed update throws with the server's detail or "Failed to update
    profile" and leaves the store untouched; [refreshUser] never throws
    and without a token does nothing at all. *)
Theorem profile_calls_touch_only_user
        (profile : DonorProfile) (resp : response User) (w : World) :
  let same st :=
    token st = token (store w) /\
    isAuthenticated st = isAuthenticated (store w) /\
    isLoading st = isLoading (store w) in
  let updated := updateDonorProfile JSON_stringify profile resp w in
  let refreshed := refreshUser JSON_stringify resp w in
  same (store (snd updated)) /\
  match fst updated with
  | Val _ => exists u, resp = Resolved u /\ user (store (snd updated)) = Some u
  | Exn e =>
      store (snd updated) = store w /\
      e = Error (failure_message resp "Failed to update profile")
  end /\
  same (store (snd refreshed)) /\
  fst refreshed = Val tt /\
  (truthy (token (store w)) = false -> snd refreshed = w).
Proof.
  intros same updated refreshed.
  unfold same, updated, refreshed, updateDonorProfile, refreshUser.
  destruct resp as [u|[[|c detail]|]];
    destruct w as [st d fl lg]; unfold bind, get; simpl;
    destruct (truthy (token st)); simpl;
    destruct fl as [|[|] fl]; simpl;
    repeat split; eauto; try discriminate.
Qed.

(** authStore.ts [login], [loadUser]: a session survives a restart.  After
    a login that went through, with the application started again on the
    same storage, [loadUser] restores the token and the stored user; when
    the server then confirms the token the store holds the user it
    returns, and when it refuses, the session is dropped from the store
    and from storage. *)
Theorem session_survives_restart
        (email password : string) (body : AuthResponse)
        (me : response User) (w : World) :
  faults w = [] ->
  access_token body <> "" ->
  JSON_stringify (resp_user body) <> "" ->
  JSON_parse (JSON_stringify (resp_user body))
    = Some (Some (resp_user body)) ->
  let logged_in :=
    snd (login JSON_stringify email password (Resolved body) w) in
  let restored :=
    snd (loadUser JSON_stringify JSON_parse me (restart logged_in [])) in
  let session u :=
    mkAuthState (Some u) (Some (access_token body)) false true in
  match me with
  | Resolved u =>
      store restored = session u /\
      log restored = [session u; session (resp_user body)] /\
      disk restored = mkDisk (Some (access_token body))
                             (Some (JSON_stringify u))
  | Rejected _ =>
      store restored = mkAuthState None None false false /\
      log restored = [mkAuthState None None false false;
                      session (resp_user body)] /\
      disk restored = mkDisk None None
  end.
Proof.
  intros Hfaults Htoken Hstr Hparse.
  destruct w as [st d fl lg]. simpl in Hfaults. subst fl.
  destruct body as [t u0]. simpl in *.
  destruct t as [|c t]; [congruence|].
  unfold login, loadUser, restart, try_catch, bind, await, ret,
    AsyncStorage_setItem, AsyncStorage_getItem, AsyncStorage_removeItem,
    storage_call, set. simpl.
  destruct (JSON_stringify u0) as [|c0 str] eqn:Hs; [congruence|].
  simpl. rewrite Hparse. simpl.
  destruct me as [u|detail]; simpl; repeat split.
Qed.

End Store.

Lemma profile_calls_touch_only_user_witness :
  let u := mkUser "7" "d@x.org" "D" "1" "donor" None "t" in
  let w := mkWorld initial (mkDisk None None) [] [] in
  truthy (token (store w)) = false /\
  snd (refreshUser (fun _ => "u") (Resolved u) w) = w /\
  token (store (snd (updateDonorProfile
                       (fun _ => "u")
                       (mkDonorProfile (Some "O-") (Some true) None None
                                       None None)
                       (Resolved u) w))) = None.
Proof.
  intros u w.
  destruct (profile_calls_touch_only_user
              (fun _ => "u")
              (mkDonorProfile (Some "O-") (Some true) None None None None)
              (Resolved u) w) as ((Htok & _) & _ & _ & _ & Hnoop).
  exact (conj eq_refl (conj (Hnoop eq_refl) Htok)).
Defined.

Lemma session_survives_restart_witness :
  let u := mkUser "7" "d@x.org" "D" "1" "donor" None "t" in
  let v := mkUser "7" "d@x.org" "Dee" "1" "donor" None "t" in
  let w := mkWorld initial (mkDisk None None) [] [] in
  let logged_in :=
    snd (login (fun _ => "u") "d@x.org" "secret"
               (Resolved (mkAuthResponse "jwt" u)) w) in
  let restored :=
    snd (loadUser (fun _ => "u") (fun _ => Some (Some u)) (Resolved v)
                  (restart logged_in [])) in
  store restored = mkAuthState (Some v) (Some "jwt") false true /\
  log restored = [mkAuthState (Some v) (Some "jwt") false true;
                  mkAuthState (Some u) (Some "jwt") false true] /\
  disk restored = mkDisk (Some "jwt") (Some "u").
Proof.
  intros u v w.
  apply (session_survives_restart (fun _ => "u") (fun _ => Some (Some u))
           "d@x.org" "secret" (mkAuthResponse "jwt" u) (Resolved v) w);
    simpl; congruence.
Defined.



End AuthFlowFacts.

Module BloodApiFacts.
Import AuthStore BloodApi.

(** bloodApi.ts [getAuthHeader] with authStore.ts [login] and [logout]:
    reading the header changes neither the store nor the storage; it is
    [Authorization: Bearer <token>] exactly when a non-empty token is
    stored.  So after a login that went through the header carries the
    token of the login, and after a logout that went through there is no
    header. *)
Theorem getAuthHeader_follows_session
        (JSON_stringify : User -> string) (email password : string)
        (body : AuthResponse) (w : World) :
  let bearer t := [("Authorization", String.append "Bearer " t)] in
  let after_login :=
    snd (login JSON_stringify email password (Resolved body) w) in
  (store (snd (getAuthHeader w)) = store w /\
   disk (snd (getAuthHeader w)) = disk w) /\
  match fst (getAuthHeader w) with
  | Val h =>
      match disk_token (disk w) with
      | Some (String c t) => h = bearer (String c t)
      | _ => h = []
      end
  | Exn e => e = StorageError
  end /\
  (faults w = [] ->
   fst (getAuthHeader after_login) =
     Val (match access_token body with
          | EmptyString => []
          | t => bearer t
          end) /\
   fst (getAuthHeader (snd (logout w))) = Val []).
Proof.
  intros bearer after_login. unfold after_login, bearer, getAuthHeader.
  destruct w as [st d fl lg]. split; [|split].
  - unfold bind, AsyncStorage_getItem, storage_call. simpl.
    destruct fl as [|[|] fl]; simpl; auto.
  - unfold bind, AsyncStorage_getItem, storage_call. simpl.
    destruct fl as [|[|] fl]; simpl; auto;
      destruct (disk_token d) as [[|c t]|]; reflexivity.
  - simpl. intros ->. destruct body as [[|c t] u]; split; reflexivity.
Qed.

Lemma getAuthHeader_follows_session_witness :
  let u := mkUser "7" "d@x.org" "D" "1" "donor" None "t" in
  let w := mkWorld initial (mkDisk None None) [] [] in
  let after_login :=
    snd (login (fun _ => "u") "d@x.org" "secret"
               (Resolved (mkAuthResponse "jwt" u)) w) in
  fst (getAuthHeader w) = Val [] /\
  fst (getAuthHeader after_login) = Val [("Authorization", "Bearer jwt")] /\
  fst (getAuthHeader (snd (logout after_login))) = Val [].
Proof.
  intros u w after_login.
  destruct (getAuthHeader_follows_session
              (fun _ => "u") "d@x.org" "secret" (mkAuthResponse "jwt" u) w)
    as (_ & _ & H).
  destruct (H eq_refl) as [Hin _].
  destruct (getAuthHeader_follows_session
              (fun _ => "u") "d@x.org" "secret" (mkAuthResponse "jwt" u)
              after_login) as (_ & _ & H').
  destruct (H' eq_refl) as [_ Hout].
  exact (conj eq_refl (conj Hin Hout)).
Defined.

(** app/requests.tsx [filters] with bloodApi.ts [getRequests]: the "All"
    filter sends no [status] parameter and every other filter sends its
    own value; in general a parameter is sent exactly when the filter is
    a non-empty string, and then it is that string. *)
Theorem filter_becomes_status_parameter (filter : option string)
        (entry : option string * string) :
  In entry RequestsScreen.filters ->
  (RequestsScreen.fetchRequests_params filter = [] <->
   filter = None \/ filter = Some "") /\
  (forall v, RequestsScreen.fetchRequests_params filter = [("status", v)]
             <-> filter = Some v /\ v <> "") /\
  RequestsScreen.fetchRequests_params (fst entry) =
    match fst entry with
    | None => []
    | Some v => [("status", v)]
    end.
Proof.
  intros Hentry. split; [|split].
  - destruct filter as [[|c t]|]; simpl; split; intros H;
      try discriminate; auto; destruct H as [H|H]; discriminate.
  - intros v. destruct filter as [[|c t]|]; simpl; split; intros H;
      try discriminate; try (destruct H; congruence).
    + injection H as <-. split; [reflexivity | discriminate].
    + destruct H as [H _]. injection H as <-. reflexivity.
  - unfold RequestsScreen.filters in Hentry. simpl in Hentry.
    destruct Hentry as [<-|[<-|[<-|[<-|[]]]]]; reflexivity.
Qed.

Lemma filter_becomes_status_parameter_witness :
  (RequestsScreen.fetchRequests_params None = [] <->
   @None string = None \/ None = Some "") /\
  (forall v, RequestsScreen.fetchRequests_params None = [("status", v)]
             <-> None = Some v /\ v <> "") /\
  RequestsScreen.fetchRequests_params (Some "matching") =
    [("status", "matching")].
Proof.
  apply (filter_becomes_status_parameter None (Some "matching", "Matching")).
  unfold RequestsScreen.filters. simpl. tauto.
Defined.

End BloodApiFacts.

Module NotificationListFacts.
Import Http Notifications NotificationList.

Section Screen.

Variable any : Type.
Variable request_id : any -> option string.

Abbreviation Notification := (Notifications.Notification any).

Lemma unreadCount_mark_all (l : list Notification) :
  unreadCount (map mark_read l) = 0%nat.
Proof.
  unfold unreadCount. induction l as [|n l IH]; simpl; [reflexivity|].
  exact IH.
Qed.

(** Marking the entries of one id: the count drops by the number of
    unread entries of that id. *)
Lemma unreadCount_mark_id (i : string) (l : list Notification) :
  (unreadCount (map (fun n => if String.eqb (id n) i then mark_read n else n)
                    l)
   + length (filter (fun n => String.eqb (id n) i && negb (is_read n)) l)
   = unreadCount l)%nat.
Proof.
  unfold unreadCount. induction l as [|n l IH]; simpl; [reflexivity|].
  destruct (String.eqb (id n) i); simpl.
  - destruct (is_read n); simpl; lia.
  - destruct (is_read n); simpl; lia.
Qed.

(** With distinct ids, an unread entry of the list is the one unread
    entry of its id. *)
Lemma one_unread_of_id (pressed : Notification) (l : list Notification) :
  NoDup (map id l) -> In pressed l -> is_read pressed = false ->
  length (filter (fun n => String.eqb (id n) (id pressed)
                           && negb (is_read n)) l) = 1%nat.
Proof.
  induction l as [|n l IH]; simpl; intros Hnd Hin Hunread; [contradiction|].
  inversion Hnd as [|? ? Hnotin Hnd']; subst.
  destruct Hin as [->|Hin].
  - rewrite String.eqb_refl, Hunread. simpl. f_equal.
    assert (Hnone : forall l' : list Notification,
              ~ In (id pressed) (map id l') ->
              filter (fun n => String.eqb (id n) (id pressed)
                               && negb (is_read n)) l' = []).
    { induction l' as [|m l' IH']; simpl; intros Hm; [reflexivity|].
      destruct (String.eqb_spec (id m) (id pressed)) as [Heq|_].
      - exfalso. apply Hm. now left.
      - simpl. apply IH'. tauto. }
    now rewrite Hnone.
  - destruct (String.eqb_spec (id n) (id pressed)) as [Heq|_].
    + exfalso. apply Hnotin. rewrite Heq. now apply in_map.
    + simpl. now apply IH.
Qed.

(** app/notifications.tsx [unreadCount] with the two handlers: neither
    handler ever raises the number of unread notifications; marking all,
    when the server call resolves, brings it to zero, so that the "Mark
    All Read" action disappears; pressing an unread notification of a list
    with distinct ids, when the server call resolves, lowers it by exactly
    one. *)
Theorem unreadCount_after_marking
        (pressed : Notification) (markRead markAll : response unit)
        (prev : list Notification) :
  let next := fst (handleNotificationPress request_id pressed markRead
                                           prev) in
  let all := handleMarkAllRead markAll prev in
  (unreadCount next <= unreadCount prev)%nat /\
  (unreadCount all <= unreadCount prev)%nat /\
  (resolved markAll = true ->
   unreadCount all = 0%nat /\ offers_mark_all all = false) /\
  (resolved markRead = true -> NoDup (map id prev) -> In pressed prev ->
   is_read pressed = false ->
   (unreadCount next + 1 = unreadCount prev)%nat).
Proof.
  intros next all. unfold next, all, handleNotificationPress,
    handleMarkAllRead. simpl.
  split; [|split; [|split]].
  - destruct (is_read pressed), markRead as [[]|detail]; simpl; try lia.
    pose proof (unreadCount_mark_id (id pressed) prev). lia.
  - destruct markAll as [[]|detail]; [|lia].
    rewrite unreadCount_mark_all. lia.
  - destruct markAll as [[]|detail]; simpl; [|discriminate].
    intros _. unfold offers_mark_all. rewrite unreadCount_mark_all.
    split; reflexivity.
  - destruct markRead as [[]|detail]; simpl; [|discriminate].
    intros _ Hnd Hin Hunread. rewrite Hunread. simpl.
    pose proof (unreadCount_mark_id (id pressed) prev) as Hcount.
    rewrite (one_unread_of_id pressed prev Hnd Hin Hunread) in Hcount.
    exact Hcount.
Qed.

(** app/notifications.tsx, the handlers composed: marking all twice is
    marking all once, marking all after a press is marking all, and a
    second press on a notification that the first press marked changes
    nothing. *)
Theorem marking_is_idempotent
        (pressed : Notification) (markRead again markAll : response unit)
        (prev : list Notification) :
  let press p r l := fst (handleNotificationPress request_id p r l) in
  handleMarkAllRead markAll (handleMarkAllRead (Resolved tt) prev) =
    handleMarkAllRead (Resolved tt) prev /\
  handleMarkAllRead (Resolved tt) (press pressed markRead prev) =
    handleMarkAllRead (Resolved tt) prev /\
  press (mark_read pressed) again (press pressed (Resolved tt) prev) =
    press pressed (Resolved tt) prev /\
  press pressed again (press pressed (Resolved tt) prev) =
    press pressed (Resolved tt) prev.
Proof.
  intros press. unfold press, handleNotificationPress, handleMarkAllRead.
  simpl.
  assert (Hmark : forall l : list Notification,
             map mark_read (map mark_read l) = map mark_read l).
  { intros l. rewrite map_map. apply map_ext. intros n. reflexivity. }
  assert (Hpress : forall l : list Notification,
             map mark_read
                 (map (fun n => if String.eqb (id n) (id pressed)
                                then mark_read n else n) l)
             = map mark_read l).
  { intros l. rewrite map_map. apply map_ext. intros n.
    destruct (String.eqb (id n) (id pressed)); reflexivity. }
  assert (Htwice : forall l : list Notification,
             map (fun n => if String.eqb (id n) (id pressed)
                           then mark_read n else n)
                 (map (fun n => if String.eqb (id n) (id pressed)
                                then mark_read n else n) l)
             = map (fun n => if String.eqb (id n) (id pressed)
                             then mark_read n else n) l).
  { intros l. rewrite map_map. apply map_ext. intros n.
    destruct (String.eqb (id n) (id pressed)) eqn:E; simpl;
      rewrite E; reflexivity. }
  split; [|split; [|split]].
  - destruct markAll as [[]|detail]; [apply Hmark | reflexivity].
  - destruct (is_read pressed), markRead as [[]|detail]; simpl;
      try reflexivity. apply Hpress.
  - reflexivity.
  - destruct (is_read pressed), again as [[]|detail]; simpl;
      try reflexivity. apply Htwice.
Qed.

End Screen.

Lemma unreadCount_after_marking_witness :
  let n1 := mkNotification unit "n1" "u" "Match" "m1" "match" true None "t1" in
  let n2 := mkNotification unit "n2" "u" "Request" "m2" "request" false
                           (Some tt) "t2" in
  let n3 := mkNotification unit "n3" "u" "Thanks" "m3" "donation" false None
                           "t3" in
  let prev := [n1; n2; n3] in
  let next := fst (handleNotificationPress (fun _ => Some "r9") n2
                                           (Resolved tt) prev) in
  let all := handleMarkAllRead (Resolved tt) prev in
  unreadCount prev = 2%nat /\
  (unreadCount all = 0%nat /\ offers_mark_all all = false) /\
  (unreadCount next + 1 = unreadCount prev)%nat.
Proof.
  intros n1 n2 n3 prev next all.
  destruct (unreadCount_after_marking unit (fun _ => Some "r9") n2
              (Resolved tt) (Resolved tt) prev) as (_ & _ & Hall & Hone).
  assert (Hnd : NoDup (map id prev)).
  { simpl. repeat constructor; simpl; intuition discriminate. }
  assert (Hin : In n2 prev) by (simpl; tauto).
  exact (conj eq_refl (conj (Hall eq_refl)
                            (Hone eq_refl Hnd Hin eq_refl))).
Defined.

End NotificationListFacts.

Module RequestDetailFacts.
Import Api RequestViews RequestDetail.

(** [some] and [find] with one predicate agree. *)
Lemma existsb_find {A} (f : A -> bool) (l : list A) :
  existsb f l = true <-> exists x, find f l = Some x /\ f x = true.
Proof.
  induction l as [|a l IH]; simpl.
  - split; [discriminate | intros [x [H _]]; discriminate].
  - destruct (f a) eqn:Ha; simpl.
    + split; [intros _; now exists a | reflexivity].
    + exact IH.
Qed.

(** app/request/[id].tsx and components/RequestCard.tsx: the detail
    screen offers "Accept & Donate" only to a donor who is among the
    matched donors with a match that is not accepted, and then the request
    card of the lists offers it too; somebody who is not a donor is never
    offered it; and the button is never shown together with the "You have
    accepted this request" card. *)
Theorem accept_is_offered_to_matched_donors
        (user : option AuthStore.User) (request : BloodRequest) :
  (RequestDetailScreen_offers_accept user request = true ->
   isDonor user = true /\
   list_offers_accept user request = true /\
   exists u m,
     user = Some u /\
     myMatch user request = Some m /\
     In m (matched_donors request) /\
     donor_id m = AuthStore.id u /\
     dm_status m <> Some "accepted") /\
  (isDonor user = false ->
   RequestDetailScreen_offers_accept user request = false /\
   list_offers_accept user request = false /\
   shows_already_accepted user request = false) /\
  (RequestDetailScreen_offers_accept user request = true ->
   shows_already_accepted user request = false).
Proof.
  unfold RequestDetailScreen_offers_accept, list_offers_accept,
    RequestCard_offers_accept, shows_already_accepted.
  split; [|split].
  - intros H. apply andb_true_iff in H. destruct H as [H Hstatus].
    apply andb_true_iff in H. destruct H as [H Hacc].
    apply andb_true_iff in H. destruct H as [Hdonor Hmatched].
    rewrite Hdonor. repeat split; [exact Hstatus|].
    unfold amMatched in Hmatched. apply existsb_find in Hmatched.
    destruct Hmatched as [m [Hfind Hm]].
    destruct user as [u|]; [|discriminate Hdonor].
    exists u, m. simpl in Hm. apply String.eqb_eq in Hm.
    repeat split; try assumption.
    + apply find_some in Hfind. tauto.
    + intros Hst. unfold hasAccepted, myMatch in Hacc.
      rewrite Hfind, Hst in Hacc. discriminate Hacc.
  - intros ->. repeat split.
  - intros H. apply andb_true_iff in H. destruct H as [H _].
    apply andb_true_iff in H. destruct H as [_ Hacc].
    apply negb_true_iff in Hacc. rewrite Hacc. apply andb_false_r.
Qed.

Lemma accept_is_offered_to_matched_donors_witness :
  let view := Samples.cancelled_view in
  let ann := Some Samples.donor_ann in
  RequestDetailScreen_offers_accept ann view = true /\
  isDonor ann = true /\
  list_offers_accept ann view = true /\
  shows_already_accepted ann view = false.
Proof.
  intros view ann.
  destruct (accept_is_offered_to_matched_donors ann view)
    as (Hmatched & _ & Hcard).
  assert (Hoffer : RequestDetailScreen_offers_accept ann view = true)
    by reflexivity.
  destruct (Hmatched Hoffer) as (Hdonor & Hlist & _).
  exact (conj Hoffer (conj Hdonor (conj Hlist (Hcard Hoffer)))).
Defined.

End RequestDetailFacts.

Module StatusFacts.
Import Display.

(** components/RequestCard.tsx and app/request/[id].tsx, the two
    [getStatusColor] and the status card: the card and the detail screen
    colour every status alike; the four statuses have four different
    colours and any other text is coloured as "pending"; but the icon and
    the sentence of the status card tell only "fulfilled" and "matching"
    apart, so that a cancelled request reads "Waiting for donor
    matches". *)
Theorem status_colours_and_texts (status s1 s2 : string) :
  In s1 STATUSES -> In s2 STATUSES ->
  RequestCard_getStatusColor status =
    RequestDetailScreen_getStatusColor status /\
  (RequestCard_getStatusColor s1 = RequestCard_getStatusColor s2 ->
   s1 = s2) /\
  (~ In status STATUSES ->
   RequestCard_getStatusColor status = RequestCard_getStatusColor "pending")
  /\
  (status <> "fulfilled" -> status <> "matching" ->
   status_icon status = "time" /\
   status_description status = "Waiting for donor matches").
Proof.
  intros H1 H2. split; [reflexivity|]. split; [|split].
  - unfold STATUSES in *. simpl in *.
    destruct H1 as [<-|[<-|[<-|[<-|[]]]]];
      destruct H2 as [<-|[<-|[<-|[<-|[]]]]];
      vm_compute; intros H; try reflexivity; discriminate H.
  - unfold STATUSES, RequestCard_getStatusColor. simpl. intros Hout.
    destruct (String.eqb_spec status "fulfilled") as [->|_]; [tauto|].
    destruct (String.eqb_spec status "matching") as [->|_]; [tauto|].
    destruct (String.eqb_spec status "cancelled") as [->|_]; [tauto|].
    reflexivity.
  - intros Hf Hm. unfold status_icon, status_description.
    destruct (String.eqb_spec status "fulfilled") as [->|_]; [congruence|].
    destruct (String.eqb_spec status "matching") as [->|_]; [congruence|].
    split; reflexivity.
Qed.

Lemma status_colours_and_texts_witness :
  RequestCard_getStatusColor "cancelled" =
    RequestDetailScreen_getStatusColor "cancelled" /\
  (RequestCard_getStatusColor "cancelled" =
     RequestCard_getStatusColor "pending" -> "cancelled" = "pending") /\
  (~ In "cancelled" STATUSES ->
   RequestCard_getStatusColor "cancelled" =
     RequestCard_getStatusColor "pending") /\
  ("cancelled" <> "fulfilled" -> "cancelled" <> "matching" ->
   status_icon "cancelled" = "time" /\
   status_description "cancelled" = "Waiting for donor matches").
Proof.
  apply (status_colours_and_texts "cancelled" "cancelled" "pending");
    unfold STATUSES; simpl; tauto.
Defined.

End StatusFacts.

Module RegisterFacts.
Import Register.

(** [length] counts UTF-16 code units, not bytes. *)
Example js_length_examples :
  let e_acute := String "195" (String "169" "") in
  let grinning_face :=
    String "240" (String "159" (String "152" (String "128" ""))) in
  js_length "secret" = 6%nat /\
  js_length "" = 0%nat /\
  js_length (String.append "h" (String.append e_acute "llo")) = 5%nat /\
  String.length (String.append "h" (String.append e_acute "llo")) = 6%nat /\
  js_length grinning_face = 2%nat.
Proof. repeat split. Qed.

Lemma is_empty_iff (s : string) : is_empty s = true <-> s = "".
Proof. destruct s; simpl; split; congruence. Qed.

Lemma reachable_role (f : Form) : reachable f -> In (role f) ROLES.
Proof.
  induction 1 as [|f a _ IH Ha].
  - simpl. tauto.
  - destruct a; simpl in *; try assumption.
    unfold handleNext. destruct (Nat.eqb (step f) 1); assumption.
Qed.

(** app/auth/register.tsx [handleRegister]: in every state the form can
    reach, [register] is called only with a name, an email, a phone and a
    password that are not empty, a password equal to its confirmation and
    at least 6 code units long, and one of the three roles; otherwise the
    form shows the first applicable of its three messages and does not
    call [register]. *)
Theorem handleRegister_validates (f : Form) :
  reachable f ->
  match handleRegister f with
  | inr data =>
      data = AuthStore.mkRegisterData (email f) (password f) (fullName f)
                                      (phone f) (role f) /\
      fullName f <> "" /\ email f <> "" /\ phone f <> "" /\
      password f <> "" /\
      password f = confirmPassword f /\
      (6 <= js_length (password f))%nat /\
      In (AuthStore.reg_role data) ROLES
  | inl message =>
      let incomplete :=
        fullName f = "" \/ email f = "" \/ phone f = "" \/
        password f = "" in
      (message = "Please fill in all fields" /\ incomplete) \/
      (message = "Passwords do not match" /\ ~ incomplete /\
       password f <> confirmPassword f) \/
      (message = "Password must be at least 6 characters" /\ ~ incomplete /\
       password f = confirmPassword f /\ (js_length (password f) < 6)%nat)
  end.
Proof.
  intros Hreach. apply reachable_role in Hreach.
  unfold handleRegister.
  destruct (is_empty (fullName f)) eqn:E1;
    [left; apply is_empty_iff in E1; tauto|].
  destruct (is_empty (email f)) eqn:E2;
    [left; apply is_empty_iff in E2; tauto|].
  destruct (is_empty (phone f)) eqn:E3;
    [left; apply is_empty_iff in E3; tauto|].
  destruct (is_empty (password f)) eqn:E4;
    [left; apply is_empty_iff in E4; tauto|].
  assert (Hfull : ~ (fullName f = "" \/ email f = "" \/ phone f = "" \/
                     password f = "")).
  { intros [H|[H|[H|H]]]; apply is_empty_iff in H; congruence. }
  simpl.
  destruct (String.eqb_spec (password f) (confirmPassword f)) as [Heq|Hne];
    simpl; [|right; left; tauto].
  destruct (Nat.ltb_spec (js_length (password f)) 6) as [Hlt|Hge].
  - right. right. tauto.
  - simpl. repeat split; try assumption; tauto.
Qed.

Lemma handleRegister_validates_witness :
  let f := mkForm 2 "hospital" "City Hospital" "desk@city.org" "555"
                  "s3cret!" "s3cret!" in
  reachable f /\
  handleRegister f =
    inr (AuthStore.mkRegisterData "desk@city.org" "s3cret!" "City Hospital"
                                  "555" "hospital").
Proof.
  intros f.
  assert (Hreach : reachable f).
  { change f with
      (act (act (act (act (act (act (act initial (SelectRole "hospital"))
        Next) (TypeFullName "City Hospital")) (TypeEmail "desk@city.org"))
        (TypePhone "555")) (TypePassword "s3cret!"))
        (TypeConfirmPassword "s3cret!")).
    repeat (apply reach_act; [|simpl; tauto]). apply reach_initial. }
  pose proof (handleRegister_validates f Hreach) as H.
  split; [exact Hreach|].
  destruct (handleRegister f) as [msg|data] eqn:E; [discriminate E|].
  destruct H as [-> _]. reflexivity.
Defined.

End RegisterFacts.

Module AddressFacts.
Import Address.

Lemma length_append (a b : string) :
  String.length (String.append a b) = (String.length a + String.length b)%nat.
Proof. induction a as [|c a IH]; simpl; [reflexivity | now rewrite IH]. Qed.

Lemma filter_Boolean_nonempty (parts : list (option string)) :
  Forall (fun x => x <> "") (filter_Boolean parts).
Proof.
  induction parts as [|[[|c rest]|] parts IH]; simpl; auto.
  constructor; [discriminate | exact IH].
Qed.

Lemma filter_Boolean_nil (parts : list (option string)) :
  filter_Boolean parts = [] <->
  Forall (fun p => p = None \/ p = Some "") parts.
Proof.
  induction parts as [|[[|c rest]|] parts IH]; simpl.
  - split; constructor.
  - rewrite IH. split; intros H; [constructor; auto | now inversion H].
  - split; [discriminate|]. intros H. inversion H as [|? ? [Hx|Hx] _]; discriminate.
  - rewrite IH. split; intros H; [constructor; auto | now inversion H].
Qed.

Lemma join_length (sep : string) (arr : list string) :
  String.length (join sep arr) =
  (total_length arr + String.length sep * (length arr - 1))%nat.
Proof.
  induction arr as [|x [|y rest] IH].
  - simpl. lia.
  - simpl. lia.
  - change (join sep (x :: y :: rest))
      with (String.append x (String.append sep (join sep (y :: rest)))).
    rewrite !length_append, IH. simpl length. simpl total_length. nia.
Qed.

(** The address line of [getCurrentLocation] (create-request screen and
    donor profile screen): it is empty exactly when no component is
    present, in which case the create-request form submits no
    [hospital_address]; otherwise it is the present components with one
    ", " between neighbours and none at either end -- its length is the
    length of the components plus two per gap -- and a single present
    component is the line itself. *)
Theorem address_line_shape (parts : list (option string)) :
  let present := filter_Boolean parts in
  (address_line parts = "" <->
   Forall (fun p => p = None \/ p = Some "") parts) /\
  (CreateRequest.or_undefined (address_line parts) = None <->
   Forall (fun p => p = None \/ p = Some "") parts) /\
  String.length (address_line parts) =
    (total_length present + 2 * (length present - 1))%nat /\
  (forall x, present = [x] -> address_line parts = x) /\
  Forall (fun x => x <> "") present.
Proof.
  intros present.
  assert (Hempty : address_line parts = "" <-> present = []).
  { unfold address_line. fold present.
    pose proof (filter_Boolean_nonempty parts) as Hne. fold present in Hne.
    destruct present as [|x [|y rest]]; simpl.
    - tauto.
    - inversion Hne; subst. split; [congruence | discriminate].
    - inversion Hne; subst. split; [|discriminate].
      destruct x; [congruence | discriminate]. }
  split; [|split; [|split; [|split]]].
  - rewrite Hempty. apply filter_Boolean_nil.
  - rewrite <- filter_Boolean_nil. fold present. rewrite <- Hempty.
    destruct (address_line parts); simpl; split; congruence.
  - unfold address_line. fold present. rewrite join_length. reflexivity.
  - intros x Hx. unfold address_line. fold present. now rewrite Hx.
  - apply filter_Boolean_nonempty.
Qed.

Lemma address_line_shape_witness :
  let parts := [None; Some "Springfield"; Some ""] in
  filter_Boolean parts = ["Springfield"] /\
  address_line parts = "Springfield" /\
  (address_line [None; Some ""] = "" /\
   CreateRequest.or_undefined (address_line [None; Some ""]) = None).
Proof.
  intros parts.
  destruct (address_line_shape parts) as (_ & _ & _ & Hone & _).
  destruct (address_line_shape [None; Some ""]) as (He & Hu & _).
  assert (Hnone : Forall (fun p : option string => p = None \/ p = Some "")
                         [None; Some ""])
    by (repeat constructor; auto).
  exact (conj eq_refl (conj (Hone "Springfield" eq_refl)
           (conj (proj2 He Hnone) (proj2 Hu Hnone)))).
Defined.

Example address_lines :
  create_request_address (Some "1 Main St") (Some "Springfield") (Some "IL")
    = "1 Main St, Springfield, IL" /\
  create_request_address None (Some "Springfield") (Some "") = "Springfield"
  /\
  create_request_address None None None = "" /\
  donor_profile_address (Some "1 Main St") None (Some "IL") (Some "USA")
    = "1 Main St, IL, USA".
Proof. repeat split. Qed.

End AddressFacts.

Module SubmissionFacts.
Import CreateRequest.

Lemma reachable_selections {coord} (f : Form coord) :
  reachable f ->
  (bloodType f = "" \/ In (bloodType f) BloodTypes.BLOOD_TYPES) /\
  In (urgency coord f) URGENCY_VALUES.
Proof.
  induction 1 as [|f f' _ [IHb IHu] Hstep].
  - simpl. tauto.
  - destruct Hstep; simpl; tauto.
Qed.

Lemma or_undefined_never_empty (s : string) : or_undefined s <> Some "".
Proof. destruct s; simpl; congruence. Qed.

(** The create-request screen, [handleSubmit] with the selectors: in every
    state the form can reach, what it submits has one of the eight blood
    types -- for which at least one donor type exists -- and one of the
    three urgency levels, and never carries an optional text that is
    empty; and it submits nothing exactly as long as no blood type has
    been selected. *)
Theorem submitted_request_is_well_formed {coord} (f : Form coord) :
  reachable f ->
  match handleSubmit f with
  | Some p =>
      bloodType f <> "" /\
      In (blood_type coord p) BloodTypes.BLOOD_TYPES /\
      BloodTypes.getCompatibleDonorTypes (blood_type coord p) <> [] /\
      In (p_urgency coord p) URGENCY_VALUES /\
      hospital_name coord p <> Some "" /\
      hospital_address coord p <> Some "" /\
      patient_name coord p <> Some "" /\
      p_notes coord p <> Some "" /\
      p_latitude coord p = latitude coord f /\
      p_longitude coord p = longitude coord f
  | None => bloodType f = ""
  end.
Proof.
  intros Hreach. destruct (reachable_selections f Hreach) as [Hb Hu].
  unfold handleSubmit.
  destruct (bloodType f) as [|c t] eqn:Eb; [reflexivity|]. simpl.
  destruct Hb as [Hb|Hb]; [discriminate Hb|].
  repeat split; try assumption; try apply or_undefined_never_empty.
  - discriminate.
  - intros Hnil.
    destruct (CompatibilityFacts.known_type_donors _ Hb) as [Ho _].
    rewrite Hnil in Ho. contradiction.
Qed.

(** The selectors of the create-request screen: in every state the form
    can reach exactly one units button and exactly one urgency button is
    highlighted, and exactly one blood-type button once a type has been
    selected, none before. *)
Theorem one_option_highlighted {coord} (f : Form coord) :
  reachable f ->
  Selectors.highlighted (unitsNeeded f) UNIT_OPTIONS = [unitsNeeded f] /\
  Selectors.highlighted (urgency coord f) URGENCY_VALUES = [urgency coord f]
  /\
  Selectors.highlighted (bloodType f) BloodTypes.BLOOD_TYPES =
    (if String.eqb (bloodType f) "" then [] else [bloodType f]).
Proof.
  intros Hreach.
  pose proof (CreateRequestFacts.reachable_unit_option f Hreach) as Hunit.
  destruct (reachable_selections f Hreach) as [Hb Hu].
  unfold UNIT_OPTIONS, URGENCY_VALUES in *. simpl in Hunit, Hu.
  split; [|split].
  - destruct Hunit as [<-|[<-|[<-|[<-|[<-|[]]]]]]; reflexivity.
  - destruct Hu as [<-|[<-|[<-|[]]]]; reflexivity.
  - destruct Hb as [->|Hb]; [reflexivity|].
    apply BloodTypesFacts.In_BLOOD_TYPES in Hb.
    repeat (destruct Hb as [Hb | Hb]); rewrite Hb; reflexivity.
Qed.

Lemma one_option_highlighted_witness :
  reachable sample_form /\
  Selectors.highlighted (unitsNeeded sample_form) UNIT_OPTIONS = ["5+"] /\
  Selectors.highlighted (urgency Z sample_form) URGENCY_VALUES = ["urgent"]
  /\
  Selectors.highlighted (bloodType sample_form) BloodTypes.BLOOD_TYPES =
    ["B+"].
Proof.
  pose proof CreateRequestFacts.sample_form_reachable as Hreach.
  exact (conj Hreach (one_option_highlighted sample_form Hreach)).
Defined.

Lemma submitted_request_is_well_formed_witness :
  reachable sample_form /\
  handleSubmit sample_form = Some sample_payload /\
  In (blood_type Z sample_payload) BloodTypes.BLOOD_TYPES /\
  BloodTypes.getCompatibleDonorTypes (blood_type Z sample_payload) <> [].
Proof.
  pose proof CreateRequestFacts.sample_form_reachable as Hreach.
  pose proof (submitted_request_is_well_formed sample_form Hreach) as H.
  change (handleSubmit sample_form) with (Some sample_payload) in H.
  destruct H as (_ & Hb & Hd & _).
  exact (conj Hreach (conj eq_refl (conj Hb Hd))).
Defined.

End SubmissionFacts.
